(** * Browser-interaction utilities of the site: reducer and hook of the
      autocomplete lookup, the modal overlay, the scroll animator and the
      SEO component.

    The browser is single threaded: every piece of code below runs as a
    task of the event loop (an effect after a render, a timer callback, a
    promise reaction, an animation frame).  Each utility is embedded as the
    state it keeps (React state, refs, closure variables, the part of the
    DOM it touches) and one function per task that the event loop can run. *)

From Stdlib Require Import String List ZArith Bool Lia QArith.
From Stdlib Require Import Lqa.
Import ListNotations.

Local Close Scope Q_scope.
Local Open Scope list_scope.
Local Open Scope string_scope.

(** JavaScript truthiness of a possibly undefined string: [undefined] and
    the empty string are falsy. *)
Definition truthy (o : option string) : bool :=
  match o with
  | Some s => negb (s =? "")
  | None => false
  end.

(** [a || b] on a possibly undefined string [a]. *)
Definition or_else (a : option string) (b : string) : string :=
  match a with
  | Some s => if s =? "" then b else s
  | None => b
  end.

(** Strict equality of two possibly undefined strings. *)
Definition opt_eqb (a b : option string) : bool :=
  match a, b with
  | Some x, Some y => x =? y
  | None, None => true
  | _, _ => false
  end.

(* ===================================================================== *)
(** * The autocomplete hook ([useGoogleAutocomplete])                     *)
(* ===================================================================== *)

Module Autocomplete.

(** The parsed JSON body of a response of the REST endpoint. *)
Record response := mkResponse {
  status : string;
  predictions : list string
}.

(** [state.results] is the literal [[]] until an [OK] response stores the
    whole parsed body ([action.payload.data]) in it. *)
Inductive results_t :=
| EmptyArray
| Data (d : response).

Record state := mkState {
  results : results_t;
  isLoading : bool;
  error : option string
}.

Definition initialState : state :=
  {| results := EmptyArray; isLoading := false; error := None |}.

(** [{ type: string, payload?: any }]; the hook only ever builds the
    payload [{ data }], so [payload] is the optional [data]. *)
Record action := mkAction {
  type : string;
  payload : option response
}.

Definition msg_request_denied : string := "Invalid 'key' parameter".
Definition msg_unknown_error : string := "Unknown error, refresh and try again.".

(** The [switch] of the reducer.  [None] is the [TypeError] that reading
    [action.payload.data] raises when an ['OK'] action has no payload. *)
Definition reducer (s : state) (a : action) : option state :=
  if type a =? "LOADING" then
    Some {| results := results s; isLoading := true; error := error s |}
  else if type a =? "OK" then
    match payload a with
    | Some data => Some {| results := Data data; isLoading := false; error := None |}
    | None => None
    end
  else if type a =? "ZERO_RESULTS" then
    Some {| results := EmptyArray; isLoading := false; error := None |}
  else if type a =? "INVALID_REQUEST" then
    Some {| results := results s; isLoading := false; error := None |}
  else if type a =? "REQUEST_DENIED" then
    Some {| results := results s; isLoading := false; error := Some msg_request_denied |}
  else if type a =? "UNKNOWN_ERROR" then
    Some {| results := results s; isLoading := false; error := Some msg_unknown_error |}
  else Some s.

(** The six action types the [switch] has a case for. *)
Definition handled_types : list string :=
  ["LOADING"; "OK"; "ZERO_RESULTS"; "INVALID_REQUEST"; "REQUEST_DENIED"; "UNKNOWN_ERROR"].

(** Membership in the six handled types, as the [switch] decides it. *)
Definition is_handled (t : string) : bool := existsb (String.eqb t) handled_types.


Definition loading : action := {| type := "LOADING"; payload := None |}.

(** The action the hook dispatches for a parsed body:
    [{ type: data.status, payload: { data } }]. *)
Definition of_response (data : response) : action :=
  {| type := status data; payload := Some data |}.

(** ** The hook around the reducer *)

Record options := mkOptions {
  types : option string;
  strictbounds : option string;
  offset : option string;
  language : option string;
  location : option string;
  radius : option string
}.

(** The argument object of the hook; [type_] is its [type] field. *)
Record props := mkProps {
  apiKey : string;
  query : string;
  type_ : string;
  opts : options
}.

Record placeDetailOptions := mkDetailOptions {
  d_fields : option (list string);
  d_region : option string;
  d_language : option string
}.

(** The dependency array of the query effect, compared entry by entry. *)
Definition deps_eqb (p p' : props) : bool :=
  (query p =? query p') && (apiKey p =? apiKey p')
  && opt_eqb (types (opts p)) (types (opts p'))
  && opt_eqb (language (opts p)) (language (opts p'))
  && opt_eqb (location (opts p)) (location (opts p'))
  && opt_eqb (radius (opts p)) (radius (opts p'))
  && opt_eqb (strictbounds (opts p)) (strictbounds (opts p'))
  && opt_eqb (offset (opts p)) (offset (opts p'))
  && (type_ p =? type_ p').

(** [cond ? `&name=${v}` : ''] *)
Definition param (cond : bool) (name : string) (v : option string) : string :=
  if cond then "&" ++ name ++ "=" ++ or_else v "" else "".

Inductive kind := Predictions | Details.

(** One call of [window.fetch].  The url of the call is [r_url] followed by
    the session token; tokens are kept apart from the text because [uuid4]
    is modelled by numbering its results. *)
Record request := mkRequest {
  r_id : nat;
  r_kind : kind;
  r_input : string;
  r_url : string;
  r_token : nat
}.

(** The closure that [debounce] returns: its arguments and its [timeout]
    variable, which holds the due time of the armed timer, if any. *)
Record debounced := mkDebounced {
  wait : Z;
  immediate : bool;
  timeout : option Z
}.

Definition debounce (w : Z) (imm : bool) : debounced :=
  {| wait := w; immediate := imm; timeout := None |}.

(** [executedFunction]: re-arms the timer; the boolean is [callNow]. *)
Definition executedFunction (t : Z) (d : debounced) : debounced * bool :=
  let callNow := immediate d && negb (if timeout d is Some _ then true else false) in
  ({| wait := wait d; immediate := immediate d; timeout := Some (t + wait d)%Z |}, callNow).

(** [executedFunction.clear] *)
Definition clear (d : debounced) : debounced :=
  {| wait := wait d; immediate := immediate d; timeout := None |}.

(** [later], the timer callback; the boolean tells whether [func] runs. *)
Definition later (d : debounced) : debounced * bool :=
  ({| wait := wait d; immediate := immediate d; timeout := None |}, negb (immediate d)).

(** Everything the hook keeps between tasks: the reducer state, the refs,
    the props of the last render, and the part of the browser it talks to
    (clock, interval timer, fetches in flight, log of fetches sent).

    [debouncedFn] is the debounced function the ref holds, with the props
    its [func] closes over.  [orphaned] are the debounced functions the ref
    held before, oldest first: the code can no longer reach them, but a
    timer that is still armed stays with the browser and runs their
    [later] when it is due.

    [uuid4 ()] is modelled as a source of pairwise distinct identifiers: the
    n-th identifier it hands out is represented by [n], [uuidNext] counts
    the calls. *)
Record hook := mkHook {
  props_ : props;
  st : state;
  sessionToken : nat;
  uuidNext : nat;
  sessionTokenTimeout : option Z;
  aborted : bool;
  initialRender : bool;
  debouncedFn : option (debounced * props);
  orphaned : list (debounced * props);
  now : Z;
  nextId : nat;
  pending : list request;
  issued : list request
}.

Definition set_st (s : state) (h : hook) : hook :=
  mkHook (props_ h) s (sessionToken h) (uuidNext h) (sessionTokenTimeout h)
    (aborted h) (initialRender h) (debouncedFn h) (orphaned h) (now h) (nextId h)
    (pending h) (issued h).

Definition set_debouncedFn (d : option (debounced * props)) (h : hook) : hook :=
  mkHook (props_ h) (st h) (sessionToken h) (uuidNext h) (sessionTokenTimeout h)
    (aborted h) (initialRender h) d (orphaned h) (now h) (nextId h) (pending h) (issued h).

(** Both places a debounced function can be in are written at once. *)
Definition set_timers (d : option (debounced * props)) (o : list (debounced * props))
  (h : hook) : hook :=
  mkHook (props_ h) (st h) (sessionToken h) (uuidNext h) (sessionTokenTimeout h)
    (aborted h) (initialRender h) d o (now h) (nextId h) (pending h) (issued h).

Definition set_pending (l : list request) (h : hook) : hook :=
  mkHook (props_ h) (st h) (sessionToken h) (uuidNext h) (sessionTokenTimeout h)
    (aborted h) (initialRender h) (debouncedFn h) (orphaned h) (now h) (nextId h) l (issued h).

Definition set_interval (i : option Z) (h : hook) : hook :=
  mkHook (props_ h) (st h) (sessionToken h) (uuidNext h) i
    (aborted h) (initialRender h) (debouncedFn h) (orphaned h) (now h) (nextId h)
    (pending h) (issued h).

(** [resetSessionToken] *)
Definition resetSessionToken (h : hook) : hook :=
  mkHook (props_ h) (st h) (uuidNext h) (S (uuidNext h)) (sessionTokenTimeout h)
    (aborted h) (initialRender h) (debouncedFn h) (orphaned h) (now h) (nextId h)
    (pending h) (issued h).

(** [dispatch]: the next render sees the reduced state.  The hook never
    dispatches an action on which the reducer throws. *)
Definition dispatch (a : action) (h : hook) : hook :=
  match reducer (st h) a with
  | Some s => set_st s h
  | None => h
  end.

(** [fetch(url, { signal: abortSignal.current })].  With an aborted signal
    the promise rejects at once and nothing is sent. *)
Definition fetch (k : kind) (input url : string) (h : hook) : hook :=
  if aborted h then h
  else
    let r := mkRequest (nextId h) k input url (sessionToken h) in
    mkHook (props_ h) (st h) (sessionToken h) (uuidNext h) (sessionTokenTimeout h)
      (aborted h) (initialRender h) (debouncedFn h) (orphaned h) (now h) (S (nextId h))
      (pending h ++ [r])%list (issued h ++ [r])%list.

Section WithCors.

(** The url prefix [cors], a constant of the module that is not shown. *)
Variable cors : string.

Definition autocomplete_url (p : props) : string :=
  let o := opts p in
  let types_ := param (truthy (types o) && (type_ p =? "places")) "types" (types o) in
  let strictbounds_ :=
    if truthy (strictbounds o) && (types_ =? "places") then "&strictbounds" else "" in
  let offset_ := param (truthy (offset o) && (type_ p =? "query")) "offset" (offset o) in
  let language_ := param (truthy (language o)) "language" (language o) in
  let location_ := param (truthy (location o)) "location" (location o) in
  let radius_ := param (truthy (radius o)) "radius" (radius o) in
  cors ++ "https://maps.googleapis.com/maps/api/place/autocomplete/json?input="
    ++ query p ++ types_ ++ language_ ++ location_ ++ radius_ ++ strictbounds_
    ++ offset_ ++ "&key=" ++ apiKey p ++ "&sessiontoken=".

(** The function handed to [debounce] by the render with props [p]. *)
Definition func (p : props) (h : hook) : hook :=
  fetch Predictions (query p) (autocomplete_url p) h.

Definition details_url (p : props) (placeId : string) (o : placeDetailOptions) : string :=
  let fields :=
    match d_fields o with
    | Some fs => "&fields=" ++ String.concat "," fs
    | None => ""
    end in
  let region := param (truthy (d_region o)) "region" (d_region o) in
  let language_ :=
    if truthy (d_language o) then "&language=" ++ or_else (d_language o) ""
    else if truthy (language (opts p)) then
      "&language=" ++ or_else (language (opts p)) "" ++ "}"
    else "" in
  cors ++ "https://maps.googleapis.com/maps/api/place/details/json?placeid="
    ++ placeId ++ fields ++ region ++ language_ ++ "&key=" ++ apiKey p
    ++ "&sessiontoken=".

(** [getPlaceDetails] up to the call of [fetch]. *)
Definition getPlaceDetails (placeId : string) (o : placeDetailOptions) (h : hook) : hook :=
  fetch Details placeId (details_url (props_ h) placeId o) h.

(** [debouncedFn.current = ...]: the ref takes the new debounced function;
    the one it held is orphaned as it is, with its timer if [clear] did not
    cancel it. *)
Definition overwrite (cp : debounced * props) (h : hook) : hook :=
  set_timers (Some cp)
    (match debouncedFn h with
     | Some old => (orphaned h ++ [old])%list
     | None => orphaned h
     end) h.

(** The effect that runs after a render whose dependencies changed. *)
Definition queryEffect (h : hook) : hook :=
  if negb (initialRender h) then
    mkHook (props_ h) (st h) (sessionToken h) (uuidNext h) (sessionTokenTimeout h)
      (aborted h) true (debouncedFn h) (orphaned h) (now h) (nextId h) (pending h) (issued h)
  else
    let h1 :=
      match debouncedFn h with
      | Some (d, p) => set_debouncedFn (Some (clear d, p)) h
      | None => h
      end in
    let h2 := if negb (isLoading (st h1)) then dispatch loading h1 else h1 in
    let '(d, callNow) := executedFunction (now h2) (debounce 400 false) in
    let h3 := overwrite (d, props_ h2) h2 in
    if callNow then func (props_ h3) h3 else h3.

(** The first render at time [t0]: the refs are initialised, then the mount
    effect arms the interval and creates the abort controller, then the
    query effect runs for the first time. *)
Definition mount (t0 : Z) (p : props) : hook :=
  queryEffect
    {| props_ := p; st := initialState; sessionToken := 0; uuidNext := 1;
       sessionTokenTimeout := Some (t0 + 180000)%Z; aborted := false;
       initialRender := false; debouncedFn := None; orphaned := []; now := t0; nextId := 0;
       pending := []; issued := [] |}.

(** A render with new props; the query effect runs when a dependency
    differs from the previous render's. *)
Definition render (p : props) (h : hook) : hook :=
  if aborted h then h
  else
    let changed := negb (deps_eqb (props_ h) p) in
    let h1 :=
      mkHook p (st h) (sessionToken h) (uuidNext h) (sessionTokenTimeout h)
        (aborted h) (initialRender h) (debouncedFn h) (orphaned h) (now h) (nextId h)
        (pending h) (issued h) in
    if changed then queryEffect h1 else h1.

(** The interval callback, when it is due at the current time. *)
Definition fire_interval (h : hook) : hook :=
  match sessionTokenTimeout h with
  | Some due =>
      if (due <=? now h)%Z
      then set_interval (Some (due + 180000)%Z) (resetSessionToken h)
      else h
  | None => h
  end.

(** The timer of one debounced function at time [t]: when it is armed and
    due, [later] runs; the list holds the props of the [func] to call, if
    [later] calls it. *)
Definition fire_timer (t : Z) (cp : debounced * props)
  : (debounced * props) * list props :=
  match timeout (fst cp) with
  | Some due =>
      if (due <=? t)%Z then
        let '(d', runs) := later (fst cp) in
        ((d', snd cp), if runs then [snd cp] else [])
      else (cp, [])
  | None => (cp, [])
  end.

(** The calls of [func] that the timers made, in order. *)
Definition send_all (ps : list props) (h : hook) : hook :=
  fold_left (fun h' p => func p h') ps h.

(** The debounce timers that are due run, in the order they were armed:
    those of the orphaned functions, then that of the current one. *)
Definition fire_debounce (h : hook) : hook :=
  let fired := map (fire_timer (now h)) (orphaned h) in
  let cur := option_map (fire_timer (now h)) (debouncedFn h) in
  let funcs :=
    (flat_map snd fired ++ match cur with Some (_, fs) => fs | None => [] end)%list in
  send_all funcs (set_timers (option_map fst cur) (map fst fired) h).

(** One millisecond passes and the timers that are due run, the interval
    (registered first) before the debounce timers. *)
Definition tick (h : hook) : hook :=
  let h1 :=
    mkHook (props_ h) (st h) (sessionToken h) (uuidNext h) (sessionTokenTimeout h)
      (aborted h) (initialRender h) (debouncedFn h) (orphaned h) (now h + 1)%Z (nextId h)
      (pending h) (issued h) in
  fire_debounce (fire_interval h1).

Definition find_request (id : nat) (l : list request) : option request :=
  find (fun r => Nat.eqb (r_id r) id) l.

Definition remove_request (id : nat) (l : list request) : list request :=
  filter (fun r => negb (Nat.eqb (r_id r) id)) l.

(** The promise of fetch [id] settles: with [Some data] the body was read
    and parsed and the [then] callback runs, with [None] the promise was
    rejected and the empty [catch] runs. *)
Definition resolve (id : nat) (body : option response) (h : hook) : hook :=
  match find_request id (pending h) with
  | None => h
  | Some r =>
      let h1 := set_pending (remove_request id (pending h)) h in
      match body with
      | None => h1
      | Some data =>
          match r_kind r with
          | Predictions => dispatch (of_response data) h1
          | Details => resetSessionToken h1
          end
      end
  end.

(** The cleanup of the mount effect: the interval is cleared and the
    controller aborted, which rejects every fetch in flight. *)
Definition unmount (h : hook) : hook :=
  if aborted h then h
  else
    mkHook (props_ h) (st h) (sessionToken h) (uuidNext h) None
      true (initialRender h) (debouncedFn h) (orphaned h) (now h) (nextId h) [] (issued h).

(** The tasks the event loop can run on a mounted hook. *)
Inductive event :=
| Render (p : props)
| Tick
| Resolve (id : nat) (body : option response)
| GetPlaceDetails (placeId : string) (o : placeDetailOptions)
| Unmount.

Definition step (h : hook) (e : event) : hook :=
  match e with
  | Render p => render p h
  | Tick => tick h
  | Resolve id body => resolve id body h
  | GetPlaceDetails placeId o => getPlaceDetails placeId o h
  | Unmount => unmount h
  end.

Definition run (h : hook) (es : list event) : hook := fold_left step es h.

(** [n] milliseconds without any other task. *)
Definition ticks (n : nat) : list event := repeat Tick n.


End WithCors.





(** No orphaned function has a timer left. *)
Definition orphans_cleared (h : hook) : Prop :=
  Forall (fun cp => timeout (fst cp) = None) (orphaned h).


(** The hook apart from the fetches: what sending requests leaves alone. *)
Definition outside_requests (h : hook) :=
  (props_ h, st h, sessionToken h, uuidNext h, sessionTokenTimeout h, aborted h,
   initialRender h, debouncedFn h, orphaned h, now h).

(** The hook apart from the session token and its interval. *)
Definition outside_session (h : hook) :=
  (props_ h, st h, aborted h, initialRender h, debouncedFn h, orphaned h, now h,
   nextId h, pending h, issued h).


(** The interval callback is due at the next tick. *)
Definition interval_due (h : hook) : bool :=
  match sessionTokenTimeout h with
  | Some due => (due <=? now h + 1)%Z
  | None => false
  end.

(** The task completes a place-detail lookup: the fetch of a
    [getPlaceDetails] call settles with a parsed body. *)
Definition detail_completes (h : hook) (e : event) : bool :=
  match e with
  | Resolve id (Some _) =>
      match find_request id (pending h) with
      | Some r => if r_kind r is Details then true else false
      | None => false
      end
  | _ => false
  end.

(** The two kinds of events at which the session token is regenerated. *)
Definition token_event (h : hook) (e : event) : bool :=
  match e with
  | Tick => interval_due h
  | _ => detail_completes h e
  end.

(** No token event happens along the run of [es] from [h]. *)
Fixpoint quiet (cors : string) (h : hook) (es : list event) : bool :=
  match es with
  | [] => true
  | e :: es' => negb (token_event h e) && quiet cors (step cors h e) es'
  end.

(** The next tick is one at which the fixed expiry interval elapses for a
    hook mounted at [t0]: the hook is still mounted, and the time it brings
    is a whole, positive number of periods of 180000ms after mounting. *)
Definition interval_elapses (t0 : Z) (h : hook) : bool :=
  negb (aborted h)
  && (0 <? now h + 1 - t0)%Z
  && ((now h + 1 - t0) mod 180000 =? 0)%Z.

(** The two kinds of events of the claim, for a hook mounted at [t0]. *)
Definition regenerates (t0 : Z) (h : hook) (e : event) : bool :=
  match e with
  | Tick => interval_elapses t0 h
  | _ => detail_completes h e
  end.

(** No such event happens along the run of [es] from [h]. *)
Fixpoint calm (cors : string) (t0 : Z) (h : hook) (es : list event) : bool :=
  match es with
  | [] => true
  | e :: es' => negb (regenerates t0 h e) && calm cors t0 (step cors h e) es'
  end.

(** The interval of a hook mounted at [t0] is on schedule: while mounted it
    is armed for the first whole number of periods after mounting that lies
    in the future; after unmounting it is cleared. *)
Definition on_schedule (t0 : Z) (h : hook) : Prop :=
  (t0 <= now h)%Z
  /\ if aborted h then sessionTokenTimeout h = None
     else exists k, (0 < k)%Z
            /\ sessionTokenTimeout h = Some (t0 + 180000 * k)%Z
            /\ (t0 + 180000 * (k - 1) <= now h < t0 + 180000 * k)%Z.

(** The session token together with the count of [uuid4] calls. *)
Definition tok (h : hook) : nat * nat := (sessionToken h, uuidNext h).

(** The current token is one that [uuid4] has handed out. *)
Definition fresh (h : hook) : Prop := (sessionToken h < uuidNext h)%nat.

(** Request [id] is in flight for a query that is no longer the current
    one. *)
Definition superseded (h : hook) (id : nat) : Prop :=
  exists r, find_request id (pending h) = Some r
            /\ r_kind r = Predictions /\ r_input r <> query (props_ h).

End Autocomplete.

(* ===================================================================== *)
(** * The modal overlay ([Modal])                                         *)
(* ===================================================================== *)

Module Modal.

(** A descendant of a container, as far as [toggleTabIndex] looks at it:
    its tag name and its [tabindex] attribute. *)
Record element := mkElement {
  tag : string;
  tabindex : option string
}.

(** The selector ['button, a, input, textarea, select']. *)
Definition selector : list string := ["button"; "a"; "input"; "textarea"; "select"].

Definition matches (e : element) : bool := existsb (String.eqb (tag e)) selector.

Inductive toggle := on | off.

(** [toggleTabIndex]: the container is given by the list of its
    descendants, in document order. *)
Definition toggleTabIndex (type : toggle) (container : list element) : list element :=
  map (fun e =>
         if matches e then
           match type with
           | on => {| tag := tag e; tabindex := None |}
           | off => {| tag := tag e; tabindex := Some "-1" |}
           end
         else e) container.

Inductive focus_target := ExitButton | FocusAfterExit.

(** The part of the document the component reads and writes.  [bodyStyle]
    is the [style] attribute of the body: [Some top] stands for
    [position: fixed; top: <top>px; width: 100%;].  [maxScroll] is the
    largest scroll offset of the document while the body is not fixed.
    [keydown] lists the [handleKeyDown] closures registered on the window,
    each named by the effect run that created it. *)
Record document := mkDocument {
  rootContainer : option (list element);
  modalContainer : option (list element);
  bodyStyle : option Z;
  pageYOffset : Z;
  maxScroll : Z;
  keydown : list nat;
  activeElement : option focus_target
}.

Definition set_root (r : option (list element)) (d : document) : document :=
  mkDocument r (modalContainer d) (bodyStyle d) (pageYOffset d) (maxScroll d)
    (keydown d) (activeElement d).

Definition set_modal (c : option (list element)) (d : document) : document :=
  mkDocument (rootContainer d) c (bodyStyle d) (pageYOffset d) (maxScroll d)
    (keydown d) (activeElement d).

Definition set_keydown (l : list nat) (d : document) : document :=
  mkDocument (rootContainer d) (modalContainer d) (bodyStyle d) (pageYOffset d)
    (maxScroll d) l (activeElement d).

Definition set_focus (f : option focus_target) (d : document) : document :=
  mkDocument (rootContainer d) (modalContainer d) (bodyStyle d) (pageYOffset d)
    (maxScroll d) (keydown d) f.

(** [if (rootContainer) toggleTabIndex(type, rootContainer)] *)
Definition toggle_root (type : toggle) (d : document) : document :=
  set_root (option_map (toggleTabIndex type) (rootContainer d)) d.

(** [if (modalContainer) toggleTabIndex(type, modalContainer)] *)
Definition toggle_modal (type : toggle) (d : document) : document :=
  set_modal (option_map (toggleTabIndex type) (modalContainer d)) d.

(** [window.scrollTo({ top })], clamped by the browser to the scroll range. *)
Definition scrollTo (top : Z) (d : document) : document :=
  mkDocument (rootContainer d) (modalContainer d) (bodyStyle d)
    (Z.max 0 (Z.min top (maxScroll d))) (maxScroll d) (keydown d) (activeElement d).

(** The two closures returned by [capturePosition] over [cachedPosition]. *)
Definition freeze (cachedPosition : Z) (d : document) : document :=
  mkDocument (rootContainer d) (modalContainer d) (Some (cachedPosition * -1)%Z)
    (pageYOffset d) (maxScroll d) (keydown d) (activeElement d).

Definition unfreeze (cachedPosition : Z) (d : document) : document :=
  scrollTo cachedPosition
    (mkDocument (rootContainer d) (modalContainer d) None
       (pageYOffset d) (maxScroll d) (keydown d) (activeElement d)).

Definition addEventListener (h : nat) (d : document) : document :=
  set_keydown (if existsb (Nat.eqb h) (keydown d) then keydown d
               else (keydown d ++ [h])%list) d.

Definition removeEventListener (h : nat) (d : document) : document :=
  set_keydown (filter (fun k => negb (Nat.eqb k h)) (keydown d)) d.

(** The closure of an effect run that its cleanup needs: the value of
    [isOpen], the position captured by [capturePosition ()], and which
    [handleKeyDown] it created. *)
Record closure := mkClosure {
  c_isOpen : bool;
  c_cachedPosition : Z;
  c_handler : nat
}.

(** The component between tasks.  [deferred] is the pending
    [setTimeout (..., 0)] callback of the first closed run; its boolean is
    whether [modalContainer] was non-null in that run.  [hasFocusAfterExit]
    tells whether the prop is set.

    [attached] tells whether the [div] that the first effect created
    ([modal.current]) was prepended to the body; it is not when a node with
    this id was there before, and then the node that [querySelector] finds
    by the id ([modalContainer] of the document) is that other node.
    [rendered] is the elements of the last portal render, [None] before the
    first; the nodes React made of them are inside [modal.current]: they
    are the content of [modalContainer] when the node is attached, and
    [unattached] when it is not.  [hasExitButton] tells whether the ref
    [exitButton] holds a button of the document, one that [focus ()] moves
    the focus to; a button inside a node that is not attached cannot take
    the focus. *)
Record modal := mkModal {
  isOpen : bool;
  initialRender : bool;
  deferred : option bool;
  lastEffect : option closure;
  runs : nat;
  hasExitButton : bool;
  hasFocusAfterExit : bool;
  attached : bool;
  rendered : option (list element);
  unattached : list element;
  doc : document
}.

(** The body of the effect on [[isOpen]]; the markers of the snippets place
    [toggleTabIndex], [capturePosition ()] and [handleKeyDown] inside it,
    before the [if]. *)
Definition effect (m : modal) : modal :=
  let d := doc m in
  let modalFound := if modalContainer d is Some _ then true else false in
  let cachedPosition := pageYOffset d in
  let handler := runs m in
  let cl := mkClosure (isOpen m) cachedPosition handler in
  if isOpen m then
    let d1 := if hasExitButton m then set_focus (Some ExitButton) d else d in
    let d2 := toggle_modal on d1 in
    let d3 := toggle_root off d2 in
    let d4 := addEventListener handler d3 in
    let d5 := freeze cachedPosition d4 in
    mkModal (isOpen m) (initialRender m) (deferred m) (Some cl) (S (runs m))
      (hasExitButton m) (hasFocusAfterExit m) (attached m) (rendered m)
      (unattached m) d5
  else
    let d1 := toggle_modal off d in
    let d2 := toggle_root on d1 in
    let d3 := removeEventListener handler d2 in
    let d4 := unfreeze cachedPosition d3 in
    let d5 := if hasFocusAfterExit m then set_focus (Some FocusAfterExit) d4 else d4 in
    if negb (initialRender m) then
      mkModal (isOpen m) true (Some modalFound) (Some cl) (S (runs m))
        (hasExitButton m) (hasFocusAfterExit m) (attached m) (rendered m)
        (unattached m) d5
    else
      mkModal (isOpen m) (initialRender m) (deferred m) (Some cl) (S (runs m))
        (hasExitButton m) (hasFocusAfterExit m) (attached m) (rendered m)
        (unattached m) d5.

(** The function the effect returned, run before the next effect and on
    unmount. *)
Definition cleanup (m : modal) : modal :=
  match lastEffect m with
  | Some cl =>
      let d :=
        if c_isOpen cl then
          unfreeze (c_cachedPosition cl) (removeEventListener (c_handler cl) (doc m))
        else doc m in
      mkModal (isOpen m) (initialRender m) (deferred m) None (runs m)
        (hasExitButton m) (hasFocusAfterExit m) (attached m) (rendered m)
        (unattached m) d
  | None => m
  end.

(** The first effect creates the modal node and prepends it to the body
    unless a node with this id is in the body already. *)
Definition createModal (d : document) : document :=
  match modalContainer d with
  | Some _ => d
  | None => set_modal (Some []) d
  end.

(** Mounting: both effects run after the first render, in order. *)
Definition mount (open focusAfterExit : bool) (d : document) : modal :=
  effect (mkModal open false None None 0 false focusAfterExit
            (if modalContainer d is Some _ then false else true) None []
            (createModal d)).

(** A render with [isOpen = b]: the effect re-runs when the value changed. *)
Definition setOpen (b : bool) (m : modal) : modal :=
  if Bool.eqb b (isOpen m) then m
  else
    let m1 := cleanup m in
    effect (mkModal b (initialRender m1) (deferred m1) (lastEffect m1) (runs m1)
              (hasExitButton m1) (hasFocusAfterExit m1) (attached m1) (rendered m1)
              (unattached m1) (doc m1)).

(** The deferred callback of [setTimeout (..., 0)]. *)
Definition runTimeout (m : modal) : modal :=
  match deferred m with
  | Some found =>
      mkModal (isOpen m) (initialRender m) None (lastEffect m) (runs m)
        (hasExitButton m) (hasFocusAfterExit m) (attached m) (rendered m)
        (unattached m)
        (if found then toggle_modal off (doc m) else doc m)
  | None => m
  end.

(** The elements of one portal render: the exit button, then the children
    (given, like a container, by the list of their elements in document
    order). *)
Definition portalElements (children : list element) : list element :=
  mkElement "button" None :: children.

(** React bringing the nodes it made of the elements [prev] up to date
    with the elements [next], place by place.  Where the tag is the same
    the node stays, and its [tabindex] attribute is written only when the
    prop differs from the one of the render before: what [toggleTabIndex]
    wrote on the node stays.  Where the tag differs, and past the end of
    [prev], a new node is made of the element. *)
Fixpoint reconcile (prev next nodes : list element) : list element :=
  match next with
  | [] => []
  | n :: next' =>
      match prev, nodes with
      | p :: prev', node :: nodes' =>
          (if tag p =? tag n then
             if opt_eqb (tabindex p) (tabindex n) then node
             else mkElement (tag node) (tabindex n)
           else n)
          :: reconcile prev' next' nodes'
      | _, _ => next
      end
  end.

(** The nodes inside [modal.current]. *)
Definition portalNodes (m : modal) : list element :=
  if attached m then
    match modalContainer (doc m) with
    | Some c => c
    | None => []
    end
  else unattached m.

(** A render once [modal.current] is set (the first one is the render after
    [forceUpdate]): the portal renders the exit button and the children
    into [modal.current], which is in the document only if the first effect
    attached it. *)
Definition renderPortal (children : list element) (m : modal) : modal :=
  let next := portalElements children in
  let nodes :=
    match rendered m with
    | None => next
    | Some prev => reconcile prev next (portalNodes m)
    end in
  mkModal (isOpen m) (initialRender m) (deferred m) (lastEffect m) (runs m)
    (attached m) (hasFocusAfterExit m) (attached m) (Some next)
    (if attached m then unattached m else nodes)
    (set_modal (if attached m then Some nodes else modalContainer (doc m)) (doc m)).

(** The browser moves the scroll position (the user scrolls, or the layout
    changes because the body became fixed). *)
Definition scrolled (y : Z) (m : modal) : modal :=
  mkModal (isOpen m) (initialRender m) (deferred m) (lastEffect m) (runs m)
    (hasExitButton m) (hasFocusAfterExit m) (attached m) (rendered m) (unattached m)
    (mkDocument (rootContainer (doc m)) (modalContainer (doc m)) (bodyStyle (doc m))
       y (maxScroll (doc m)) (keydown (doc m)) (activeElement (doc m))).

Inductive event :=
| SetOpen (b : bool)
| Timeout
| RenderPortal (children : list element)
| Scrolled (y : Z).

Definition step (m : modal) (e : event) : modal :=
  match e with
  | SetOpen b => setOpen b m
  | Timeout => runTimeout m
  | RenderPortal children => renderPortal children m
  | Scrolled y => scrolled y m
  end.

Definition run (m : modal) (es : list event) : modal := fold_left step es m.

(** The render that closes the modal. *)
Definition closes (e : event) : bool :=
  match e with
  | SetOpen false => true
  | _ => false
  end.

(** Tab reachability as the component controls it. *)
Definition untabbable (e : element) : Prop := tabindex e = Some "-1".

(** The background matches [isOpen]: the elements the selector finds in
    the root container are out of the tab order exactly when it is open. *)
Definition background_ok (m : modal) : Prop :=
  forall els e, rootContainer (doc m) = Some els -> In e els -> matches e = true ->
  (untabbable e <-> isOpen m = true).

(** The cleanup that is waiting belongs to the effect run for the current
    value of [isOpen]. *)
Definition consistent (m : modal) : Prop :=
  exists cl, lastEffect m = Some cl /\ c_isOpen cl = isOpen m.

(** The modal is open, was opened at scroll offset [p], and the body is
    held fixed at that offset; [M] is the scroll range of the page. *)
Definition frozen_at (p M : Z) (m : modal) : Prop :=
  isOpen m = true
  /\ (exists h, lastEffect m = Some (mkClosure true p h))
  /\ bodyStyle (doc m) = Some (- p)%Z
  /\ maxScroll (doc m) = M.

End Modal.

(* ===================================================================== *)
(** * The scroll animator ([scroll])                                      *)
(* ===================================================================== *)

Module Scroll.

Local Open Scope Q_scope.

(** JavaScript numbers are taken as exact rationals; times are whole
    milliseconds, as [Date.now ()] returns them. *)

(** [x < y] on numbers. *)
Definition Qltb (x y : Q) : bool := negb (Qle_bool y x).

(** The default easing, [t => t * t * t * t]. *)
Definition easeInQuart (t : Q) : Q := t * t * t * t.

(** The arguments of [scroll] after defaults, with what the call reads from
    the page: [targetTop] is [t.getBoundingClientRect().top], [pageYOffset0]
    is [window.pageYOffset], [startTime] is [Date.now ()], all at the time
    of the call.  [hasCallback] tells whether [callback] was passed. *)
Record args := mkArgs {
  targetTop : Q;
  offset : Q;
  duration : Q;
  easingFn : Q -> Q;
  hasCallback : bool;
  pageYOffset0 : Q;
  startTime : Z
}.

Definition cachePosition (a : args) : Q := targetTop a + offset a + pageYOffset0 a.

(** What the animation touches: the [transform] of the base element
    ([Some y] is [translateY(<y>px)], [None] is no transform); the [top]
    that [window.scrollTo] was called with last, if it was called (where
    the page then stands is up to the browser, which clamps [top] to the
    scroll range of the document); whether the frame requested last is
    still to run; whether the completion timeout is pending; how often
    [callback] ran; and how many tasks ended in an uncaught [TypeError]. *)
Record animator := mkAnimator {
  transform : option Q;
  scrolledTo : option Q;
  frameRequested : bool;
  timeoutPending : bool;
  callbackRuns : nat;
  uncaught : nat
}.

(** The value computed for [translate] in a frame with [elapsed < duration]. *)
Definition translate (a : args) (elapsed : Q) : Q :=
  let ease := easingFn a (elapsed / duration a) in
  if Qltb 1 ease then cachePosition a * -1
  else ease * (targetTop a + offset a) * -1.

(** [animate], run at time [t] (milliseconds). *)
Definition animate (a : args) (t : Z) (s : animator) : animator :=
  let elapsed := inject_Z (t - startTime a) in
  if Qltb elapsed (duration a) then
    mkAnimator (Some (translate a elapsed)) (scrolledTo s) true
      (timeoutPending s) (callbackRuns s) (uncaught s)
  else
    mkAnimator (transform s) (scrolledTo s) false true (callbackRuns s) (uncaught s).

(** The callback of the [setTimeout (..., 0)] of the last frame.  Its last
    statement is [callback ()]: when no [callback] was passed, calling
    [undefined] throws a [TypeError] that nothing catches, after the
    transform was reset and [window.scrollTo] called. *)
Definition complete (a : args) (s : animator) : animator :=
  mkAnimator (Some 0) (Some (cachePosition a)) false false
    (if hasCallback a then S (callbackRuns s) else callbackRuns s)
    (if hasCallback a then uncaught s else S (uncaught s)).

(** [scroll]: caches the position and start time and calls [animate] once.
    It returns nothing. *)
Definition scroll (a : args) (transform0 : option Q) : animator :=
  animate a (startTime a) (mkAnimator transform0 None false false 0 0).

(** The tasks that can run while an animation is under way.  [Teardown] is
    the consumer going away (its component unmounts); [scroll] registered
    nothing for it and handed out no handle, so no code of the animator
    runs. *)
Inductive event :=
| Frame (t : Z)
| Timeout
| Teardown.

Definition step (a : args) (s : animator) (e : event) : animator :=
  match e with
  | Frame t => if frameRequested s then animate a t s else s
  | Timeout => if timeoutPending s then complete a s else s
  | Teardown => s
  end.

Definition run (a : args) (s : animator) (es : list event) : animator :=
  fold_left (step a) es s.

(** The translate at which the eased motion ends ([ease = 1]); the page
    then shows what [window.scrollTo ({ top: cachePosition })] shows. *)
Definition finalTranslate (a : args) : Q := (targetTop a + offset a) * -1.

End Scroll.

(* ===================================================================== *)
(** * The SEO component                                                   *)
(* ===================================================================== *)

Module Seo.

Record siteMetadata := mkSite {
  site_title : string;
  site_description : string;
  site_author : string
}.

(** An entry of Helmet's [meta] array. *)
Record metaEntry := mkMeta {
  name : option string;
  property : option string;
  content : option string
}.

(** The props; [None] is an omitted prop. *)
Record SEOProps := mkProps {
  description : option string;
  lang : option string;
  meta : option (list metaEntry);
  keywords : option (list string);
  title : option string
}.

(** The props handed to [Helmet]. *)
Record helmet := mkHelmet {
  htmlAttributes_lang : string;
  h_title : string;
  titleTemplate : string;
  h_meta : list metaEntry
}.

Definition default {A} (o : option A) (d : A) : A :=
  match o with Some x => x | None => d end.

Definition named (n c : string) : metaEntry :=
  {| name := Some n; property := None; content := Some c |}.

Definition SEO (p : SEOProps) (site : siteMetadata) : helmet :=
  let lang_ := default (lang p) "en" in
  let meta_ := default (meta p) [] in
  let keywords_ := default (keywords p) [] in
  let metaTitle := or_else (title p) (site_title site) in
  let metaDescription := or_else (description p) (site_description site) in
  {| htmlAttributes_lang := lang_;
     h_title := metaTitle;
     titleTemplate := "%s";
     h_meta :=
       ([ named "google-site-verification" "joDHdTdb56PSG3inAa0NTavlVPlKpbJSIZM0OfTfImI";
          named "description" metaDescription;
          {| name := None; property := Some "og:title"; content := title p |};
          {| name := None; property := Some "og:description"; content := Some metaDescription |};
          {| name := None; property := Some "og:type"; content := Some "website" |};
          named "twitter:card" "summary";
          named "twitter:creator" (site_author site);
          {| name := Some "twitter:title"; property := None; content := title p |};
          named "twitter:description" metaDescription ]
        ++ (if (0 <? length keywords_)%nat
            then [ named "keywords" (String.concat ", " keywords_) ]
            else [])
        ++ meta_)%list |}.

(** Helmet renders [titleTemplate] with [%s] replaced by the title; with
    the template [%s] that is the title itself. *)
Definition renderedTitle (h : helmet) : string := h_title h.

Definition is_keywords (m : metaEntry) : bool := opt_eqb (name m) (Some "keywords").

Definition is_description (m : metaEntry) : bool := opt_eqb (name m) (Some "description").

(** The entries the component itself puts before the caller's [meta]. *)
Definition own_meta (p : SEOProps) (site : siteMetadata) : list metaEntry :=
  firstn (length (h_meta (SEO p site)) - length (default (meta p) [])) (h_meta (SEO p site)).

End Seo.

(* ===================================================================== *)
(** * [debounce] on its own                                               *)
(* ===================================================================== *)

Module Debounce.

Import Autocomplete.

(** A debounced function in use: its closure, how often [func] has run,
    and the clock in milliseconds. *)
Record timer := mkTimer {
  closure_ : debounced;
  funcRuns : nat;
  clock : Z
}.

Definition start (w : Z) (imm : bool) (t0 : Z) : timer :=
  mkTimer (debounce w imm) 0 t0.

(** What can happen to it: it is called, [clear] is called, or a
    millisecond passes and the armed timer, when due, runs [later]. *)
Inductive op :=
| Call
| Clear
| Wait.

Definition step (s : timer) (o : op) : timer :=
  match o with
  | Call =>
      let '(d, callNow) := executedFunction (clock s) (closure_ s) in
      mkTimer d (if callNow then S (funcRuns s) else funcRuns s) (clock s)
  | Clear => mkTimer (clear (closure_ s)) (funcRuns s) (clock s)
  | Wait =>
      let t := (clock s + 1)%Z in
      match timeout (closure_ s) with
      | Some due =>
          if (due <=? t)%Z then
            let '(d, runs) := later (closure_ s) in
            mkTimer d (if runs then S (funcRuns s) else funcRuns s) t
          else mkTimer (closure_ s) (funcRuns s) t
      | None => mkTimer (closure_ s) (funcRuns s) t
      end
  end.

Definition run (s : timer) (os : list op) : timer := fold_left step os s.

Definition waits (n : nat) : list op := repeat Wait n.

(** Calls that follow one another after the given gaps. *)
Fixpoint calls (gaps : list nat) : list op :=
  match gaps with
  | [] => []
  | g :: gaps' => (waits g ++ Call :: calls gaps')%list
  end.

(** Every gap is shorter than the wait. *)
Definition within (w : Z) (gaps : list nat) : bool :=
  forallb (fun g => (Z.of_nat g <? w)%Z) gaps.

End Debounce.

(* ===================================================================== *)
(** * The keyboard handler of the modal                                   *)
(* ===================================================================== *)

Module ModalKeys.

Import Modal.

(** [handleKeyDown]: the number of [handleExit] calls so far, after one
    registered handler has seen the key. *)
Definition handleKeyDown (key : string) (exits : nat) : nat :=
  if key =? "Escape" then S exits else exits.

(** A [keydown] event on the window: every registered handler runs.  The
    result is how often [handleExit] was called. *)
Definition keydownEvent (key : string) (m : modal) : nat :=
  fold_left (fun exits _ => handleKeyDown key exits) (keydown (doc m)) 0%nat.

(** The elements of a container that the selector does not find. *)
Definition others (c : list element) : list element :=
  filter (fun e => negb (matches e)) c.

(** The cleanup that is waiting belongs to the run for the current value
    of [isOpen], and the only handler registered is the one of that run,
    while the modal is open. *)
Definition one_handler (m : modal) : Prop :=
  exists cl, lastEffect m = Some cl /\ c_isOpen cl = isOpen m
    /\ keydown (doc m) = if isOpen m then [c_handler cl] else [].

(** The first closed run is over and its deferred pass has run. *)
Definition pass_done (m : modal) : Prop :=
  initialRender m = true /\ deferred m = None.

End ModalKeys.

(* ===================================================================== *)
(** * The navigation demo: reducer, observers, progress bar               *)
(* ===================================================================== *)

Module NavDemo.

(** The values a section id can take: [undefined] (a variable not yet
    assigned), [null] ([getAttribute] on a missing attribute), a string. *)
Inductive jsval :=
| Undefined
| Null
| Str (s : string).

Definition js_truthy (v : jsval) : bool :=
  match v with
  | Str s => negb (s =? "")
  | _ => false
  end.

(** [a === b] *)
Definition strict_eq (a b : jsval) : bool :=
  match a, b with
  | Undefined, Undefined => true
  | Null, Null => true
  | Str x, Str y => x =? y
  | _, _ => false
  end.

Record state := mkState {
  isNavShowing : bool;
  currentlyFocusedSection : jsval
}.

(** [initialState] has no [currentlyFocusedSection] key. *)
Definition initialState : state :=
  {| isNavShowing := false; currentlyFocusedSection := Undefined |}.

(** [payload] is [payload.sectionId] when the action has a payload. *)
Record action := mkAction {
  type : string;
  payload : option jsval
}.

(** The reducer with its [TOGGLE_SECTION] case; [None] is the [TypeError]
    of reading [sectionId] off a missing payload. *)
Definition reducer (s : state) (a : action) : option state :=
  if type a =? "SHOW_NAV" then
    Some {| isNavShowing := true; currentlyFocusedSection := currentlyFocusedSection s |}
  else if type a =? "HIDE_NAV" then
    Some {| isNavShowing := false; currentlyFocusedSection := currentlyFocusedSection s |}
  else if type a =? "TOGGLE_SECTION" then
    match payload a with
    | Some sectionId =>
        Some {| isNavShowing := isNavShowing s; currentlyFocusedSection := sectionId |}
    | None => None
    end
  else Some s.

(** The component between observer callbacks: the reducer state and the two
    variables [currentSection] and [previousSection] that the callback of
    the first render closes over. *)
Record demo := mkDemo {
  st : state;
  currentSection : jsval;
  previousSection : jsval
}.

Definition mounted : demo := mkDemo initialState Undefined Undefined.

Definition dispatch (a : action) (d : demo) : demo :=
  match reducer (st d) a with
  | Some s => mkDemo s (currentSection d) (previousSection d)
  | None => d
  end.

(** The callback of the banner observer. *)
Definition bannerCallback (isIntersecting : bool) (d : demo) : demo :=
  if isIntersecting then dispatch (mkAction "HIDE_NAV" None) d
  else dispatch (mkAction "SHOW_NAV" None) d.

(** The callback of the section observer; [sectionData] is
    [target.getAttribute('data-section-id')]. *)
Definition sectionCallback (isIntersecting : bool) (sectionData : jsval) (d : demo) : demo :=
  if isIntersecting then
    let d1 := dispatch (mkAction "TOGGLE_SECTION" (Some sectionData)) d in
    mkDemo (st d1) sectionData (currentSection d1)
  else if strict_eq (currentSection d) sectionData && js_truthy (previousSection d) then
    let d1 := mkDemo (st d) (previousSection d) (previousSection d) in
    dispatch (mkAction "TOGGLE_SECTION" (Some (previousSection d1))) d1
  else d.

(** An entry an observer reports, for the banner or for a section. *)
Inductive entry :=
| Banner (isIntersecting : bool)
| Section_ (isIntersecting : bool) (sectionData : jsval).

Definition deliver (d : demo) (e : entry) : demo :=
  match e with
  | Banner b => bannerCallback b d
  | Section_ b x => sectionCallback b x d
  end.

(** [entries.forEach] over the batches the observers report. *)
Definition observe (d : demo) (entries : list entry) : demo := fold_left deliver entries d.

(** ** The progress bar of [Nav] *)

(** The [transform] of the scaler: [scaleY(0)], or [scaleY(p)] with [p]
    the two-decimal rendering of [scrollY / totalHeight]; the quotient is
    kept by its two operands. *)
Inductive scale :=
| ScaleZero
| ScaleRatio (scrollY totalHeight : Q).

(** The closure of one run of the effect: the rectangle values it read. *)
Record measures := mkMeasures {
  topOfBeginning : Q;
  totalHeight : Q
}.

(** [frames] are the animation frames requested and not yet run or
    cancelled, each with the number of the effect run whose [animate] it
    calls and that run's closure; [lastRun] is the run whose cleanup is
    waiting. *)
Record nav := mkNav {
  isShowing : bool;
  transform : scale;
  frames : list (nat * measures);
  lastRun : option nat;
  runs : nat
}.

(** [calculateScroll] *)
Definition calculateScroll (c : measures) (scrollY : Q) : scale :=
  if Qle_bool (topOfBeginning c) scrollY then ScaleRatio scrollY (totalHeight c)
  else ScaleZero.

(** The body of the effect on [[isShowing]], with the rectangles measured
    now: [animate ()] when showing, which requests the first frame of this
    run.  In the hidden branch [animationId] is still undefined, so
    [cancelAnimationFrame] cancels nothing. *)
Definition effect (c : measures) (scrollY : Q) (n : nav) : nav :=
  if isShowing n then
    mkNav (isShowing n) (calculateScroll c scrollY)
      (frames n ++ [(runs n, c)])%list (Some (runs n)) (S (runs n))
  else mkNav (isShowing n) ScaleZero (frames n) (Some (runs n)) (S (runs n)).

(** The cleanup of the last run cancels the frame that its [animate]
    requested last, if it requested any. *)
Definition cleanup (n : nav) : nav :=
  match lastRun n with
  | Some k =>
      mkNav (isShowing n) (transform n)
        (filter (fun f => negb (Nat.eqb (fst f) k)) (frames n)) None (runs n)
  | None => n
  end.

(** An animation frame: every requested [animate] runs and requests its
    next frame. *)
Definition animationFrame (scrollY : Q) (n : nav) : nav :=
  mkNav (isShowing n)
    (fold_left (fun _ f => calculateScroll (snd f) scrollY) (frames n) (transform n))
    (frames n) (lastRun n) (runs n).

Inductive event :=
| SetShowing (b : bool) (c : measures) (scrollY : Q)
| AnimationFrame (scrollY : Q)
| Unmount_.

Definition navMount (b : bool) (c : measures) (scrollY : Q) : nav :=
  effect c scrollY (mkNav b ScaleZero [] None 0).

Definition step (n : nav) (e : event) : nav :=
  match e with
  | SetShowing b c y =>
      if Bool.eqb b (isShowing n) then n
      else
        let n1 := cleanup n in
        effect c y (mkNav b (transform n1) (frames n1) (lastRun n1) (runs n1))
  | AnimationFrame y => animationFrame y n
  | Unmount_ => cleanup n
  end.

Definition run (n : nav) (es : list event) : nav := fold_left step es n.

(** The scaler as mounted: [.scaler] has [transform: scaleY(0)] in the
    style sheet; one frame is pending exactly while the nav is showing. *)
Definition one_loop (n : nav) : Prop :=
  (exists k, lastRun n = Some k /\ (k < runs n)%nat
     /\ Forall (fun f => (fst f < runs n)%nat) (frames n)
     /\ if isShowing n then exists c, frames n = [(k, c)]
        else frames n = [] /\ transform n = ScaleZero).

End NavDemo.

(* ===================================================================== *)
(** * The list editor: [mapPropsToChildren]                               *)
(* ===================================================================== *)

Module NotesApp.

(** A child of the component: [Empty] is [null], [undefined] or a
    boolean; [Text] a string or a number; [Fn] a function; [Element] an
    element with the [displayName] of its type, the props
    [mapPropsToChildren] may add ([index] and [isInEditingMode]; [dispatch]
    is the same for all), and its children.  The keys of the elements,
    which [React.Children.map] rewrites, are not part of the model, and
    neither are plain objects, on which it throws. *)
#[warnings="-register-all"]
Inductive child :=
| Empty
| Text (s : string)
| Fn
| Element (displayName : option string) (added : option (nat * bool))
    (children : list child).

Definition is_note (displayName : option string) : bool :=
  opt_eqb displayName (Some "Note").

(** What [React.Children.map] with the callback of [recursiveMap] puts into
    its result for one child, threading [indexOfComponent]: nothing for an
    [Empty] child (the callback is called with [null] and gives it back,
    and a [null] result is left out) and for a function (which is passed
    over without a call), the child itself for a text.
    [currentEditingIndex] is an integer, [-1] when no note is edited. *)
Fixpoint recursiveMap (currentEditingIndex : Z) (c : child) (indexOfComponent : nat)
  : list child * nat :=
  match c with
  | Empty => ([], indexOfComponent)
  | Fn => ([], indexOfComponent)
  | Text s => ([Text s], indexOfComponent)
  | Element dn added cs =>
      if is_note dn then
        ([Element dn
            (Some (indexOfComponent, (Z.of_nat indexOfComponent =? currentEditingIndex)%Z))
            cs],
         S indexOfComponent)
      else
        let '(cs', n') :=
          (fix mapAll (l : list child) (n : nat) : list child * nat :=
             match l with
             | [] => ([], n)
             | x :: l' =>
                 let '(xs, n1) := recursiveMap currentEditingIndex x n in
                 let '(l'', n2) := mapAll l' n1 in
                 ((xs ++ l'')%list, n2)
             end) cs indexOfComponent in
        ([Element dn added cs'], n')
  end.

(** [React.Children.map] with [recursiveMap] over a list of children. *)
Fixpoint mapAll (currentEditingIndex : Z) (l : list child) (n : nat) : list child * nat :=
  match l with
  | [] => ([], n)
  | x :: l' =>
      let '(xs, n1) := recursiveMap currentEditingIndex x n in
      let '(l'', n2) := mapAll currentEditingIndex l' n1 in
      ((xs ++ l'')%list, n2)
  end.

Definition mapPropsToChildren (currentEditingIndex : Z) (children : list child) : list child :=
  fst (mapAll currentEditingIndex children 0).

(** The added props of the notes of a tree in document order, without
    looking inside a note. *)
Fixpoint notes (c : child) : list (option (nat * bool)) :=
  match c with
  | Empty => []
  | Text _ => []
  | Fn => []
  | Element dn added cs =>
      if is_note dn then [added]
      else flat_map notes cs
  end.

Definition notesOf (l : list child) : list (option (nat * bool)) := flat_map notes l.

(** The props a note with index [i] receives. *)
Definition noteProps (currentEditingIndex : Z) (i : nat) : option (nat * bool) :=
  Some (i, (Z.of_nat i =? currentEditingIndex)%Z).

(** How many notes are rendered in editing mode. *)
Definition editing (l : list (option (nat * bool))) : nat :=
  length (filter (fun a => match a with Some (_, true) => true | _ => false end) l).

(** What one pass does to a child: its notes get the next indexes, and the
    counter moves on by their number. *)
Definition mapped (cur : Z) (c : child) : Prop :=
  forall n,
    notesOf (fst (recursiveMap cur c n))
      = map (noteProps cur) (seq n (length (notes c)))
    /\ snd (recursiveMap cur c n) = (n + length (notes c))%nat.

Definition mappedAll (cur : Z) (l : list child) : Prop :=
  forall n,
    notesOf (fst (mapAll cur l n))
      = map (noteProps cur) (seq n (length (notesOf l)))
    /\ snd (mapAll cur l n) = (n + length (notesOf l))%nat.

End NotesApp.

(* ===================================================================== *)
(** * Phases of the scroll animation and of the navigation demo           *)
(* ===================================================================== *)

Module ScrollObs.

Import Scroll.
Local Open Scope Q_scope.

(** Frames are being requested. *)
Definition running (s : animator) : Prop :=
  frameRequested s = true /\ timeoutPending s = false /\ callbackRuns s = 0%nat
  /\ uncaught s = 0%nat.

(** The last frame has run and the completion timeout is pending. *)
Definition finishing (s : animator) : Prop :=
  frameRequested s = false /\ timeoutPending s = true /\ callbackRuns s = 0%nat
  /\ uncaught s = 0%nat.

(** The completion step has run. *)
Definition completed (a : args) (s : animator) : Prop :=
  s = mkAnimator (Some 0) (Some (cachePosition a)) false false
        (if hasCallback a then 1%nat else 0%nat)
        (if hasCallback a then 0%nat else 1%nat).

Definition lifecycle (a : args) (s : animator) : Prop :=
  running s \/ finishing s \/ completed a s.

End ScrollObs.

Module NavObs.

Import NavDemo.

(** What the banner observer reported last, if it reported at all. *)
Fixpoint last_banner (es : list entry) : option bool :=
  match es with
  | [] => None
  | e :: es' =>
      match last_banner es' with
      | Some b => Some b
      | None => if e is Banner b then Some b else None
      end
  end.

(** The highlighted section is the one the callback holds as current. *)
Definition in_step (d : demo) : Prop :=
  currentlyFocusedSection (st d) = currentSection d.

(** The callback has nothing further back to revert to. *)
Definition reverted (d : demo) : Prop :=
  in_step d /\ previousSection d = currentSection d.

Definition is_unmount (e : event) : bool :=
  if e is Unmount_ then true else false.

End NavObs.

(* ===================================================================== *)
(** * Observations on runs of the autocomplete hook                       *)
(* ===================================================================== *)

Module HookObs.

Import Autocomplete.

Definition is_render (e : event) : bool :=
  match e with
  | Render _ => true
  | _ => false
  end.

(** The tasks that dispatch to the reducer: a render, and the arrival of a
    parsed body for an autocomplete request in flight. *)
Definition may_commit (h : hook) (e : event) : bool :=
  match e with
  | Render _ => true
  | Resolve id (Some _) =>
      match find_request id (pending h) with
      | Some r => if r_kind r is Predictions then true else false
      | None => false
      end
  | _ => false
  end.

(** No task of the run dispatches. *)
Fixpoint silent (cors : string) (h : hook) (es : list event) : bool :=
  match es with
  | [] => true
  | e :: es' => negb (may_commit h e) && silent cors (step cors h e) es'
  end.

Definition is_details (r : request) : bool :=
  if r_kind r is Details then true else false.

(** Nothing is armed, nothing was dispatched, and every fetch so far is a
    detail lookup. *)
Definition untouched (h : hook) : Prop :=
  debouncedFn h = None /\ orphaned h = [] /\ st h = initialState
  /\ forallb is_details (pending h) = true /\ forallb is_details (issued h) = true.

(** The current token has been handed out, and no request sent so far
    carries a later one. *)
Definition tokens_ordered (h : hook) : Prop :=
  (sessionToken h < uuidNext h)%nat
  /\ Forall (fun r => (r_token r <= sessionToken h)%nat) (issued h).

(** The props with [options.strictbounds] left out. *)
Definition without_strictbounds (p : props) : props :=
  mkProps (apiKey p) (query p) (type_ p)
    (mkOptions (types (opts p)) None (offset (opts p)) (language (opts p))
       (location (opts p)) (radius (opts p))).

End HookObs.

(* ===================================================================== *)
(** * Properties of the reducer                                           *)
(* ===================================================================== *)

Section ReducerFacts.

Import Autocomplete.

Lemma eqb_neq_false (a b : string) : a <> b -> (a =? b) = false.
Proof. intros H. now apply String.eqb_neq. Qed.

Lemma is_handled_false (t : string) :
  is_handled t = false ->
  (t =? "LOADING") = false /\ (t =? "OK") = false /\ (t =? "ZERO_RESULTS") = false
  /\ (t =? "INVALID_REQUEST") = false /\ (t =? "REQUEST_DENIED") = false
  /\ (t =? "UNKNOWN_ERROR") = false.
Proof.
  unfold is_handled, handled_types. cbn [existsb].
  intros H. repeat (apply orb_false_elim in H; destruct H as [? H]).
  repeat split; assumption.
Qed.

Lemma reducer_default (s : state) (a : action) :
  is_handled (type a) = false -> reducer s a = Some s.
Proof.
  intros H. apply is_handled_false in H.
  destruct H as (H1 & H2 & H3 & H4 & H5 & H6).
  unfold reducer. now rewrite H1, H2, H3, H4, H5, H6.
Qed.

(** The hook never makes the reducer throw: a status action always carries
    its payload. *)
Lemma reducer_of_response_total (s : state) (data : response) :
  exists s', reducer s (of_response data) = Some s'.
Proof.
  unfold reducer, of_response; cbn [type payload].
  repeat match goal with
         | |- context [if ?b then _ else _] => destruct b
         end; eauto.
Qed.



(** C9: an action whose type is none of the six handled ones gives back
    the state it was applied to; so after a [LOADING] dispatch a response
    with an unrecognised status leaves results and error as they were and
    [isLoading] at [true]. *)
Theorem reducer_unhandled_type_unchanged (s : state) (a : action)
  (Hun : is_handled (type a) = false) :
  reducer s a = Some s
  /\ exists s1, reducer s loading = Some s1
       /\ reducer s1 a = Some s1
       /\ isLoading s1 = true /\ results s1 = results s /\ error s1 = error s.
Proof.
  split; [now apply reducer_default |].
  eexists; split; [reflexivity |].
  split; [now apply reducer_default | repeat split].
Qed.

Lemma reducer_unhandled_type_unchanged_witness :
  let a := of_response (mkResponse "OVER_QUERY_LIMIT" []) in
  is_handled (type a) = false
  /\ reducer initialState a = Some initialState.
Proof.
  split; [reflexivity |].
  apply (reducer_unhandled_type_unchanged initialState
           (of_response (mkResponse "OVER_QUERY_LIMIT" []))).
  reflexivity.
Defined.

End ReducerFacts.

(* ===================================================================== *)
(** * Properties of the SEO component                                     *)
(* ===================================================================== *)

Section SeoFacts.

Import Seo.

Lemma or_else_some (t b : string) : t <> "" -> or_else (Some t) b = t.
Proof. intros H. unfold or_else. now rewrite (eqb_neq_false _ _ H). Qed.

(** C10, the claim as worded, fails for a title that is provided but
    empty: [title || ...] takes the site title. *)
Lemma SEO_empty_title_falls_back :
  let p := {| description := None; lang := None; meta := None; keywords := None;
              title := Some "" |} in
  let site := mkSite "Tim Chang" "Portfolio" "@timcchang" in
  title p = Some ""
  /\ renderedTitle (SEO p site) = "Tim Chang"
  /\ renderedTitle (SEO p site) <> "".
Proof. cbv zeta. repeat split. discriminate. Qed.

(** C10, amended: the title is the [title] prop when that is provided and
    not empty, and the site title otherwise; the same for the content of
    the description entry; the entries of the component are followed by the
    caller's [meta], and among the component's entries there is a keywords
    entry exactly when [keywords] is not empty, its content the keywords
    joined by [", "]. *)
Theorem SEO_title_description_keywords (p : SEOProps) (site : siteMetadata) :
  (forall t, title p = Some t -> t <> "" -> renderedTitle (SEO p site) = t)
  /\ (title p = None \/ title p = Some "" ->
      renderedTitle (SEO p site) = site_title site)
  /\ h_meta (SEO p site) = (own_meta p site ++ default (meta p) [])%list
  /\ (forall d, description p = Some d -> d <> "" ->
      filter is_description (own_meta p site) = [named "description" d])
  /\ (description p = None \/ description p = Some "" ->
      filter is_description (own_meta p site)
      = [named "description" (site_description site)])
  /\ (default (keywords p) [] <> [] ->
      filter is_keywords (own_meta p site)
      = [named "keywords" (String.concat ", " (default (keywords p) []))])
  /\ (default (keywords p) [] = [] -> filter is_keywords (own_meta p site) = []).
Proof.
  assert (Hown :
    own_meta p site =
      ([ named "google-site-verification" "joDHdTdb56PSG3inAa0NTavlVPlKpbJSIZM0OfTfImI";
         named "description" (or_else (description p) (site_description site));
         {| name := None; property := Some "og:title"; content := title p |};
         {| name := None; property := Some "og:description";
            content := Some (or_else (description p) (site_description site)) |};
         {| name := None; property := Some "og:type"; content := Some "website" |};
         named "twitter:card" "summary";
         named "twitter:creator" (site_author site);
         {| name := Some "twitter:title"; property := None; content := title p |};
         named "twitter:description" (or_else (description p) (site_description site)) ]
       ++ (if (0 <? length (default (keywords p) []))%nat
           then [ named "keywords" (String.concat ", " (default (keywords p) [])) ]
           else []))%list).
  { unfold own_meta. cbn [SEO h_meta].
    rewrite app_assoc.
    rewrite length_app, Nat.add_sub.
    now rewrite firstn_app, Nat.sub_diag, firstn_all, firstn_O, app_nil_r. }
  repeat split.
  - intros t Ht Hne. unfold renderedTitle; cbn [SEO h_title]. rewrite Ht.
    now apply or_else_some.
  - intros [Ht | Ht]; unfold renderedTitle; cbn [SEO h_title]; now rewrite Ht.
  - rewrite Hown. cbn [SEO h_meta]. now rewrite app_assoc.
  - intros d Hd Hne. rewrite Hown, Hd, (or_else_some _ _ Hne).
    destruct (0 <? length (default (keywords p) []))%nat; reflexivity.
  - intros [Hd | Hd]; rewrite Hown, Hd;
      destruct (0 <? length (default (keywords p) []))%nat; reflexivity.
  - intros Hk. rewrite Hown.
    destruct (default (keywords p) []) as [| k ks] eqn:E; [congruence |].
    reflexivity.
  - intros Hk. rewrite Hown, Hk. reflexivity.
Qed.

Lemma SEO_title_description_keywords_witness :
  let p := {| description := Some "Notes on hooks"; lang := None; meta := None;
              keywords := Some ["React"; "Hooks"; "DOM"]; title := Some "Modal" |} in
  let site := mkSite "Tim Chang" "Portfolio" "@timcchang" in
  renderedTitle (SEO p site) = "Modal"
  /\ filter is_keywords (own_meta p site) = [named "keywords" "React, Hooks, DOM"].
Proof.
  cbv zeta. split.
  - apply (SEO_title_description_keywords
             {| description := Some "Notes on hooks"; lang := None; meta := None;
                keywords := Some ["React"; "Hooks"; "DOM"]; title := Some "Modal" |}
             (mkSite "Tim Chang" "Portfolio" "@timcchang")) with (t := "Modal");
      [reflexivity | discriminate].
  - apply (SEO_title_description_keywords
             {| description := Some "Notes on hooks"; lang := None; meta := None;
                keywords := Some ["React"; "Hooks"; "DOM"]; title := Some "Modal" |}
             (mkSite "Tim Chang" "Portfolio" "@timcchang")).
    discriminate.
Defined.

End SeoFacts.

(* ===================================================================== *)
(** * Properties of the scroll animator                                   *)
(* ===================================================================== *)

Section ScrollFacts.

Import Scroll.
Local Open Scope Q_scope.

Lemma Qltb_lt (x y : Q) : Qltb x y = true <-> x < y.
Proof.
  unfold Qltb. rewrite negb_true_iff. split.
  - intros H. apply Qnot_le_lt. intros Hle.
    apply Qle_bool_iff in Hle. congruence.
  - intros H. destruct (Qle_bool y x) eqn:E; [| reflexivity].
    apply Qle_bool_iff in E. exfalso. exact (Qlt_not_le _ _ H E).
Qed.

Lemma Qltb_ge (x y : Q) : Qltb x y = false <-> y <= x.
Proof.
  unfold Qltb. rewrite negb_false_iff. apply Qle_bool_iff.
Qed.

(** Within the duration the easing function is applied to a ratio of the
    unit interval (the clock does not run backwards: [0 <= elapsed]). *)
Lemma ratio_in_unit_interval (elapsed dur : Q) :
  0 <= elapsed -> elapsed < dur -> 0 <= elapsed / dur /\ elapsed / dur < 1.
Proof.
  intros H0 Hlt.
  assert (Hd : 0 < dur) by (eapply Qle_lt_trans; eassumption).
  split.
  - apply Qle_shift_div_l; [assumption |]. now rewrite Qmult_0_l.
  - apply Qlt_shift_div_r; [assumption |]. now rewrite Qmult_1_l.
Qed.

(** A frame within the duration sets the transform to the eased fraction
    of the distance, and requests the next frame. *)
Lemma animate_in_progress (a : args) (t : Z) (s : animator) :
  inject_Z (t - startTime a) < duration a ->
  animate a t s
  = mkAnimator (Some (translate a (inject_Z (t - startTime a)))) (scrolledTo s)
      true (timeoutPending s) (callbackRuns s) (uncaught s).
Proof.
  intros H. unfold animate. apply Qltb_lt in H. now rewrite H.
Qed.

Lemma translate_eased (a : args) (elapsed : Q) :
  easingFn a (elapsed / duration a) <= 1 ->
  translate a elapsed = easingFn a (elapsed / duration a) * (targetTop a + offset a) * -1.
Proof.
  intros H. unfold translate. apply Qltb_ge in H. now rewrite H.
Qed.

(** When the easing value exceeds 1 the translate is [cachePosition * -1];
    that is where the eased motion ends only on a page that was not
    scrolled when [scroll] was called. *)
Lemma translate_snap (a : args) (elapsed : Q) :
  1 < easingFn a (elapsed / duration a) ->
  translate a elapsed == - cachePosition a
  /\ (translate a elapsed == finalTranslate a <-> pageYOffset0 a == 0).
Proof.
  intros H. unfold translate. apply Qltb_lt in H. rewrite H.
  unfold cachePosition, finalTranslate. split; [ring |].
  split; intros E.
  - assert (E' : (targetTop a + offset a + pageYOffset0 a) * -1
                 + (targetTop a + offset a) == 
                 (targetTop a + offset a) * -1 + (targetTop a + offset a))
      by (now rewrite E).
    ring_simplify in E'.
    assert (E2 : pageYOffset0 a == - ((-1 # 1) * pageYOffset0 a)) by ring.
    rewrite E2, E'. reflexivity.
  - rewrite E. ring.
Qed.

(** C6 at a page scrolled by 100px, target 200px below the viewport top,
    easing [t => 4 * t], halfway through: the easing value is 2, the frame
    applies [translateY(-300px)], while the motion ends at
    [translateY(-200px)], the value at easing 1. *)
Theorem animate_snap_on_scrolled_page :
  let a := mkArgs 200 0 500 (fun t => 4 * t) false 100 0 in
  let s := step a (scroll a None) (Frame 250) in
  1 < easingFn a (inject_Z 250 / duration a)
  /\ (exists y, transform s = Some y /\ y == -300)
  /\ finalTranslate a == -200
  /\ translate a (duration a * (1 # 4)) == finalTranslate a.
Proof.
  cbv zeta. split; [reflexivity |].
  split; [eexists; split; [reflexivity | reflexivity] |].
  split; reflexivity.
Qed.

(** C7, the claim as worded, fails: [scroll] gives the consumer nothing to
    cancel with.  After a frame halfway through the default animation the
    consumer goes away; the transform of that frame is still on the base
    element and the next frame is still requested. *)
Lemma teardown_leaves_transform :
  let a := mkArgs 200 0 500 easeInQuart false 0 0 in
  let s := run a (scroll a None) [Frame 250; Teardown] in
  (exists y, transform s = Some y /\ y == - (25 # 2) /\ ~ y == 0)
  /\ frameRequested s = true.
Proof.
  cbv zeta. split; [| reflexivity].
  eexists; split; [reflexivity |]. split; [reflexivity | discriminate].
Qed.

(** C7, amended: the animator has no cancellation.  The consumer going away
    changes nothing; while a frame is requested and the duration has not
    elapsed, the frame puts a transform on the base element and requests
    the next frame; only the completion step, once the duration has
    elapsed, replaces the transform by [translateY(0px)], calls
    [window.scrollTo] with the cached target position (which the browser
    clamps to the scroll range) and stops the frames; it then calls the
    callback, or throws when none was passed. *)
Theorem animator_runs_to_completion (a : args) (s : animator) (t : Z) :
  step a s Teardown = s
  /\ (frameRequested s = true -> inject_Z (t - startTime a) < duration a ->
      transform (step a s (Frame t)) = Some (translate a (inject_Z (t - startTime a)))
      /\ frameRequested (step a s (Frame t)) = true
      /\ timeoutPending (step a s (Frame t)) = timeoutPending s)
  /\ (frameRequested s = true -> duration a <= inject_Z (t - startTime a) ->
      transform (step a s (Frame t)) = transform s
      /\ frameRequested (step a s (Frame t)) = false
      /\ timeoutPending (step a s (Frame t)) = true)
  /\ (timeoutPending s = true ->
      transform (step a s Timeout) = Some 0
      /\ scrolledTo (step a s Timeout) = Some (cachePosition a)
      /\ frameRequested (step a s Timeout) = false
      /\ timeoutPending (step a s Timeout) = false
      /\ callbackRuns (step a s Timeout)
         = (if hasCallback a then S (callbackRuns s) else callbackRuns s)
      /\ uncaught (step a s Timeout)
         = (if hasCallback a then uncaught s else S (uncaught s))).
Proof.
  split; [reflexivity |]. split; [| split].
  - intros Hf Hlt. cbn [step]. rewrite Hf, (animate_in_progress _ _ _ Hlt).
    repeat split.
  - intros Hf Hge. cbn [step]. rewrite Hf. unfold animate.
    apply Qltb_ge in Hge. rewrite Hge. repeat split.
  - intros Hp. cbn [step]. rewrite Hp. repeat split.
Qed.

Lemma animator_runs_to_completion_witness :
  let a := mkArgs 200 0 500 easeInQuart true 0 0 in
  let s := run a (scroll a None) [Frame 250; Teardown; Frame 500] in
  timeoutPending s = true
  /\ transform (step a s Timeout) = Some 0
  /\ scrolledTo (step a s Timeout) = Some (cachePosition a).
Proof.
  cbv zeta. split; [reflexivity |].
  pose proof (animator_runs_to_completion
                (mkArgs 200 0 500 easeInQuart true 0 0)
                (run (mkArgs 200 0 500 easeInQuart true 0 0)
                     (scroll (mkArgs 200 0 500 easeInQuart true 0 0) None)
                     [Frame 250; Teardown; Frame 500]) 0%Z) as (_ & _ & _ & H).
  destruct (H eq_refl) as (H1 & H2 & _). split; assumption.
Defined.

End ScrollFacts.

(* ===================================================================== *)
(** * Properties of the modal                                             *)
(* ===================================================================== *)

Section ModalFacts.

Import Modal.
Local Open Scope Z_scope.

Lemma matches_toggled (type : toggle) (c : list element) (e : element) :
  In e (toggleTabIndex type c) -> matches e = true ->
  tabindex e = match type with on => None | off => Some "-1" end.
Proof.
  unfold toggleTabIndex. rewrite in_map_iff. intros (e0 & He & _) Hm.
  destruct (matches e0) eqn:E0.
  - destruct type; subst e; reflexivity.
  - subst e. congruence.
Qed.

Lemma effect_root (m : modal) :
  rootContainer (doc (effect m))
  = option_map (toggleTabIndex (if isOpen m then off else on)) (rootContainer (doc m))
  /\ isOpen (effect m) = isOpen m.
Proof.
  unfold effect.
  destruct (isOpen m), (hasExitButton m), (hasFocusAfterExit m), (initialRender m);
    cbn; split; reflexivity.
Qed.

Lemma cleanup_root (m : modal) :
  rootContainer (doc (cleanup m)) = rootContainer (doc m)
  /\ isOpen (cleanup m) = isOpen m.
Proof.
  unfold cleanup. destruct (lastEffect m) as [cl |]; [| split; reflexivity].
  destruct (c_isOpen cl); cbn; split; reflexivity.
Qed.

Lemma effect_background_ok (m : modal) : background_ok (effect m).
Proof.
  intros els e Hr Hin Hm.
  destruct (effect_root m) as [Hroot Hopen]. rewrite Hopen.
  rewrite Hroot in Hr. destruct (rootContainer (doc m)) as [r |]; [| discriminate].
  injection Hr as <-. unfold untabbable.
  rewrite (matches_toggled _ _ _ Hin Hm).
  destruct (isOpen m); split; intros H; try reflexivity; discriminate.
Qed.

Lemma step_background_ok (m : modal) (e : event) :
  background_ok m -> background_ok (step m e).
Proof.
  intros Hinv. destruct e as [b | | children | y]; cbn [step].
  - unfold setOpen. destruct (Bool.eqb b (isOpen m)); [assumption |].
    apply effect_background_ok.
  - unfold runTimeout. destruct (deferred m) as [[|] |]; exact Hinv.
  - exact Hinv.
  - exact Hinv.
Qed.

Lemma run_background_ok (es : list event) (m : modal) :
  background_ok m -> background_ok (run m es).
Proof.
  revert m. induction es as [| e es IH]; intros m Hinv; [assumption |].
  cbn [run fold_left]. apply IH, step_background_ok, Hinv.
Qed.




Lemma effect_open (m : modal) :
  isOpen m = true ->
  bodyStyle (doc (effect m)) = Some (- pageYOffset (doc m))
  /\ pageYOffset (doc (effect m)) = pageYOffset (doc m)
  /\ maxScroll (doc (effect m)) = maxScroll (doc m)
  /\ lastEffect (effect m) = Some (mkClosure true (pageYOffset (doc m)) (runs m))
  /\ isOpen (effect m) = true.
Proof.
  intros H. unfold effect. rewrite H.
  replace (- pageYOffset (doc m)) with (pageYOffset (doc m) * -1) by lia.
  destruct (hasExitButton m); cbn; repeat split; reflexivity.
Qed.

Lemma effect_closed (m : modal) :
  isOpen m = false ->
  bodyStyle (doc (effect m)) = None
  /\ pageYOffset (doc (effect m))
     = Z.max 0 (Z.min (pageYOffset (doc m)) (maxScroll (doc m)))
  /\ lastEffect (effect m) = Some (mkClosure false (pageYOffset (doc m)) (runs m))
  /\ isOpen (effect m) = false.
Proof.
  intros H. unfold effect. rewrite H.
  destruct (hasFocusAfterExit m), (initialRender m); cbn; repeat split; reflexivity.
Qed.

Lemma effect_consistent (m : modal) : consistent (effect m).
Proof.
  unfold consistent. destruct (isOpen m) eqn:E.
  - destruct (effect_open m E) as (_ & _ & _ & Hl & Ho). rewrite Hl, Ho. eauto.
  - destruct (effect_closed m E) as (_ & _ & Hl & Ho). rewrite Hl, Ho. eauto.
Qed.

Lemma step_consistent (m : modal) (e : event) :
  consistent m -> consistent (step m e).
Proof.
  intros Hc. destruct e as [b | | children | y]; cbn [step].
  - unfold setOpen. destruct (Bool.eqb b (isOpen m)); [assumption |].
    apply effect_consistent.
  - unfold runTimeout. destruct (deferred m) as [[|] |]; exact Hc.
  - exact Hc.
  - exact Hc.
Qed.

Lemma run_consistent (es : list event) (m : modal) :
  consistent m -> consistent (run m es).
Proof.
  revert m. induction es as [| e es IH]; intros m Hc; [assumption |].
  cbn [run fold_left]. apply IH, step_consistent, Hc.
Qed.

(** Opening from a closed modal freezes the body at the current offset. *)
Lemma setOpen_true_frozen (m : modal) :
  consistent m -> isOpen m = false ->
  frozen_at (pageYOffset (doc m)) (maxScroll (doc m)) (setOpen true m)
  /\ pageYOffset (doc (setOpen true m)) = pageYOffset (doc m).
Proof.
  intros (cl & Hl & Hc) Hclosed. unfold setOpen. rewrite Hclosed. cbn [Bool.eqb].
  assert (Hdoc : doc (cleanup m) = doc m).
  { unfold cleanup. rewrite Hl. rewrite Hc, Hclosed. reflexivity. }
  match goal with |- context [effect ?m'] => set (m1 := m') end.
  assert (Ho : isOpen m1 = true) by reflexivity.
  assert (Hd : doc m1 = doc m) by exact Hdoc.
  destruct (effect_open m1 Ho) as (Hb & Hp & Hm & Hle & Hio).
  rewrite Hd in Hb, Hp, Hm, Hle.
  unfold frozen_at. repeat split; eauto.
Qed.

Lemma step_frozen (p M : Z) (m : modal) (e : event) :
  closes e = false -> frozen_at p M m -> frozen_at p M (step m e).
Proof.
  intros He Hf. destruct e as [[|] | | children | y]; cbn [step].
  - unfold setOpen. pose proof Hf as (Ho & _). rewrite Ho. exact Hf.
  - discriminate.
  - unfold runTimeout. destruct (deferred m) as [[|] |]; exact Hf.
  - exact Hf.
  - exact Hf.
Qed.

Lemma run_frozen (p M : Z) (es : list event) (m : modal) :
  forallb (fun e => negb (closes e)) es = true ->
  frozen_at p M m -> frozen_at p M (run m es).
Proof.
  revert m. induction es as [| e es IH]; intros m Hes Hf; [assumption |].
  cbn [forallb] in Hes. apply andb_prop in Hes. destruct Hes as [He Hes].
  apply negb_true_iff in He.
  cbn [run fold_left]. apply IH; [assumption |]. now apply step_frozen.
Qed.

(** Closing a modal that was frozen at [p] puts the page back at [p]. *)
Lemma setOpen_false_restores (p M : Z) (m : modal) :
  0 <= p <= M -> frozen_at p M m ->
  bodyStyle (doc (setOpen false m)) = None
  /\ pageYOffset (doc (setOpen false m)) = p.
Proof.
  intros Hp (Ho & (h & Hl) & Hb & Hm). unfold setOpen. rewrite Ho. cbn [Bool.eqb].
  match goal with |- context [effect ?m'] => set (m1 := m') end.
  assert (Hc : isOpen m1 = false) by reflexivity.
  assert (Hy : pageYOffset (doc m1) = p /\ maxScroll (doc m1) = M).
  { subst m1. unfold cleanup. rewrite Hl. cbn. rewrite Hm. split; [lia | reflexivity]. }
  destruct Hy as [Hy HM].
  destruct (effect_closed m1 Hc) as (Hb' & Hp' & _).
  rewrite Hy, HM in Hp'. split; [assumption | lia].
Qed.

(** C5: for a mounted, closed modal on a page scrolled to [p], opening
    fixes the body at [top: -p px] without moving the page, the body stays
    fixed at that offset whatever happens until the modal is closed, and
    closing removes the style and puts the scroll position back at [p]. *)
Theorem open_close_restores_scroll
  (d : document) (open0 focusAfterExit : bool) (es0 es : list event) :
  let m := run (mount open0 focusAfterExit d) es0 in
  let p := pageYOffset (doc m) in
  let opened := setOpen true m in
  let closed := setOpen false (run opened es) in
  isOpen m = false ->
  0 <= p <= maxScroll (doc m) ->
  forallb (fun e => negb (closes e)) es = true ->
  bodyStyle (doc opened) = Some (- p) /\ pageYOffset (doc opened) = p
  /\ bodyStyle (doc (run opened es)) = Some (- p)
  /\ bodyStyle (doc closed) = None /\ pageYOffset (doc closed) = p.
Proof.
  intros m p opened closed Hclosed Hp Hes.
  assert (Hc : consistent m).
  { apply run_consistent. unfold mount. apply effect_consistent. }
  destruct (setOpen_true_frozen m Hc Hclosed) as [Hf Hy].
  fold opened in Hf, Hy. fold p in Hf, Hy.
  pose proof (run_frozen _ _ es opened Hes Hf) as Hf'.
  destruct (setOpen_false_restores _ _ _ Hp Hf') as [Hb Hq].
  destruct Hf as (_ & _ & Hb1 & _). destruct Hf' as (_ & _ & Hb2 & _).
  repeat split; assumption.
Qed.

Lemma open_close_restores_scroll_witness :
  let d := mkDocument (Some [mkElement "button" None]) None None 0 2000 [] None in
  let es0 := [RenderPortal [mkElement "input" None]; Timeout; Scrolled 500] in
  let es := [Scrolled 0; RenderPortal []; Scrolled 40] in
  let opened := setOpen true (run (mount false true d) es0) in
  bodyStyle (doc opened) = Some (- 500) /\ pageYOffset (doc opened) = 500
  /\ bodyStyle (doc (run opened es)) = Some (- 500)
  /\ bodyStyle (doc (setOpen false (run opened es))) = None
  /\ pageYOffset (doc (setOpen false (run opened es))) = 500.
Proof.
  cbv zeta.
  apply (open_close_restores_scroll
           (mkDocument (Some [mkElement "button" None]) None None 0 2000 [] None)
           false true
           [RenderPortal [mkElement "input" None]; Timeout; Scrolled 500]
           [Scrolled 0; RenderPortal []; Scrolled 40]).
  - reflexivity.
  - cbn. lia.
  - reflexivity.
Defined.

End ModalFacts.

(* ===================================================================== *)
(** * Properties of the autocomplete hook                                 *)
(* ===================================================================== *)

Section HookFacts.

Import Autocomplete.

Variable cors : string.

(** ** What the parts of a task leave alone *)

Lemma fetch_outside (k : kind) (input url : string) (h : hook) :
  outside_requests (fetch k input url h) = outside_requests h.
Proof.
  unfold fetch. destruct (aborted h) eqn:E; [reflexivity |].
  unfold outside_requests. cbn. now rewrite E.
Qed.

Lemma send_all_outside (ps : list props) (h : hook) :
  outside_requests (send_all cors ps h) = outside_requests h.
Proof.
  unfold send_all. revert h. induction ps as [| p ps IH]; intros h; [reflexivity |].
  cbn [fold_left]. rewrite IH. unfold func. apply fetch_outside.
Qed.

Lemma send_all_aborted (ps : list props) (h : hook) :
  aborted h = true -> send_all cors ps h = h.
Proof.
  intros Ha. unfold send_all. induction ps as [| p ps IH]; [reflexivity |].
  cbn [fold_left]. unfold func at 2, fetch. now rewrite Ha.
Qed.

Lemma send_all_issued (ps : list props) (h : hook) :
  exists new, issued (send_all cors ps h) = (issued h ++ new)%list
    /\ Forall (fun r => r_token r = sessionToken h) new.
Proof.
  unfold send_all. revert h. induction ps as [| p ps IH]; intros h.
  - exists []. rewrite app_nil_r. split; [reflexivity | constructor].
  - cbn [fold_left]. destruct (IH (func cors p h)) as (n2 & Hi & Ht).
    assert (Hs : sessionToken (func cors p h) = sessionToken h).
    { unfold func, fetch. destruct (aborted h); reflexivity. }
    rewrite Hs in Ht. rewrite Hi. unfold func, fetch.
    destruct (aborted h); cbn [issued].
    + exists n2. auto.
    + exists (mkRequest (nextId h) Predictions (query p) (autocomplete_url cors p)
                (sessionToken h) :: n2).
      rewrite <- app_assoc. split; [reflexivity |]. constructor; [reflexivity | exact Ht].
Qed.

Lemma fire_debounce_outside (h : hook) :
  st (fire_debounce cors h) = st h
  /\ tok (fire_debounce cors h) = tok h
  /\ sessionTokenTimeout (fire_debounce cors h) = sessionTokenTimeout h
  /\ aborted (fire_debounce cors h) = aborted h
  /\ initialRender (fire_debounce cors h) = initialRender h
  /\ props_ (fire_debounce cors h) = props_ h
  /\ now (fire_debounce cors h) = now h.
Proof.
  unfold fire_debounce.
  match goal with
  | |- context [send_all cors ?ps ?h0] =>
      pose proof (send_all_outside ps h0) as E; set (h1 := send_all cors ps h0) in *
  end.
  unfold outside_requests, tok in *. cbn in E. injection E as -> -> -> -> -> -> -> _ _ ->.
  repeat split.
Qed.

Lemma fire_interval_outside (h : hook) :
  outside_session (fire_interval h) = outside_session h.
Proof.
  unfold fire_interval. destruct (sessionTokenTimeout h) as [due |]; [| reflexivity].
  destruct (due <=? now h)%Z; reflexivity.
Qed.

Lemma queryEffect_outside (h : hook) :
  tok (queryEffect cors h) = tok h
  /\ sessionTokenTimeout (queryEffect cors h) = sessionTokenTimeout h
  /\ aborted (queryEffect cors h) = aborted h
  /\ now (queryEffect cors h) = now h
  /\ props_ (queryEffect cors h) = props_ h
  /\ issued (queryEffect cors h) = issued h
  /\ pending (queryEffect cors h) = pending h
  /\ nextId (queryEffect cors h) = nextId h.
Proof.
  unfold queryEffect. destruct (initialRender h); cbn; [| repeat split].
  destruct (debouncedFn h) as [[d p] |]; cbn;
    destruct (isLoading (st h)); cbn; repeat split.
Qed.

Lemma render_outside (p : props) (h : hook) :
  tok (render cors p h) = tok h
  /\ sessionTokenTimeout (render cors p h) = sessionTokenTimeout h
  /\ aborted (render cors p h) = aborted h
  /\ now (render cors p h) = now h
  /\ issued (render cors p h) = issued h
  /\ pending (render cors p h) = pending h
  /\ nextId (render cors p h) = nextId h.
Proof.
  unfold render. destruct (aborted h) eqn:Ha; [rewrite ?Ha; repeat split |].
  destruct (negb (deps_eqb (props_ h) p)); [| rewrite ?Ha; repeat split].
  match goal with |- context [queryEffect cors ?h0] =>
    destruct (queryEffect_outside h0) as (H1 & H2 & H3 & H4 & _ & H6 & H7 & H8)
  end.
  rewrite H1, H2, H3, H4, H6, H7, H8. cbn. rewrite ?Ha. repeat split.
Qed.

Lemma resolve_outside (id : nat) (body : option response) (h : hook) :
  sessionTokenTimeout (resolve id body h) = sessionTokenTimeout h
  /\ aborted (resolve id body h) = aborted h
  /\ now (resolve id body h) = now h
  /\ issued (resolve id body h) = issued h
  /\ debouncedFn (resolve id body h) = debouncedFn h
  /\ orphaned (resolve id body h) = orphaned h
  /\ initialRender (resolve id body h) = initialRender h.
Proof.
  unfold resolve. destruct (find_request id (pending h)) as [r |]; [| repeat split].
  destruct body as [data |]; [| repeat split].
  destruct (r_kind r); [| repeat split].
  unfold dispatch. destruct (reducer _ _); repeat split.
Qed.

(** ** The session token *)

Lemma dispatch_tok (a : action) (h : hook) : tok (dispatch a h) = tok h.
Proof. unfold dispatch. destruct (reducer (st h) a); reflexivity. Qed.

Lemma fetch_tok (k : kind) (input url : string) (h : hook) :
  tok (fetch k input url h) = tok h.
Proof. unfold fetch. destruct (aborted h); reflexivity. Qed.

Lemma render_tok (p : props) (h : hook) : tok (render cors p h) = tok h.
Proof. apply render_outside. Qed.

Lemma fire_debounce_tok (h : hook) : tok (fire_debounce cors h) = tok h.
Proof. apply fire_debounce_outside. Qed.

Lemma tick_tok (h : hook) :
  tok (tick cors h)
  = if interval_due h then (uuidNext h, S (uuidNext h)) else tok h.
Proof.
  unfold tick. rewrite fire_debounce_tok. unfold fire_interval, interval_due. cbn.
  destruct (sessionTokenTimeout h) as [due |]; [| reflexivity].
  destruct (due <=? now h + 1)%Z; reflexivity.
Qed.

Lemma resolve_tok (id : nat) (body : option response) (h : hook) :
  tok (resolve id body h)
  = if detail_completes h (Resolve id body) then (uuidNext h, S (uuidNext h))
    else tok h.
Proof.
  unfold resolve, detail_completes.
  destruct (find_request id (pending h)) as [r |]; [| now destruct body].
  destruct body as [data |]; [| reflexivity].
  destruct (r_kind r); [| reflexivity].
  now rewrite dispatch_tok.
Qed.

Lemma step_tok (h : hook) (e : event) :
  tok (step cors h e)
  = if token_event h e then (uuidNext h, S (uuidNext h)) else tok h.
Proof.
  destruct e as [p | | id body | placeId o |]; cbn [step token_event].
  - cbn. apply render_tok.
  - apply tick_tok.
  - apply resolve_tok.
  - cbn. unfold getPlaceDetails. apply fetch_tok.
  - cbn. unfold unmount. destruct (aborted h); reflexivity.
Qed.

Lemma step_fresh (h : hook) (e : event) : fresh h -> fresh (step cors h e).
Proof.
  unfold fresh. intros H.
  pose proof (step_tok h e) as E. unfold tok in E.
  destruct (token_event h e); injection E as -> ->; lia.
Qed.

Lemma run_fresh (es : list event) (h : hook) : fresh h -> fresh (run cors h es).
Proof.
  revert h. induction es as [| e es IH]; intros h H; [assumption |].
  cbn [run fold_left]. apply IH, step_fresh, H.
Qed.

Lemma mount_fresh (t0 : Z) (p : props) : fresh (mount cors t0 p).
Proof. unfold fresh. cbn. lia. Qed.

Lemma step_token_iff (h : hook) (e : event) :
  fresh h ->
  sessionToken (step cors h e) <> sessionToken h <-> token_event h e = true.
Proof.
  unfold fresh. intros H.
  pose proof (step_tok h e) as E. unfold tok in E.
  destruct (token_event h e); injection E as -> _.
  - split; [reflexivity | intros _; lia].
  - split; [intros N; now elim N | discriminate].
Qed.

Lemma quiet_stable (es : list event) (h : hook) :
  quiet cors h es = true -> sessionToken (run cors h es) = sessionToken h.
Proof.
  revert h. induction es as [| e es IH]; intros h Hq; [reflexivity |].
  cbn [quiet] in Hq. apply andb_prop in Hq. destruct Hq as [He Hq].
  cbn [run fold_left]. change (fold_left (step cors) es (step cors h e))
    with (run cors (step cors h e) es).
  rewrite (IH _ Hq).
  pose proof (step_tok h e) as E. unfold tok in E.
  apply negb_true_iff in He. rewrite He in E. now injection E.
Qed.

(** ** The interval keeps its schedule *)

Lemma mount_on_schedule (t0 : Z) (p : props) : on_schedule t0 (mount cors t0 p).
Proof.
  unfold on_schedule.
  change (now (mount cors t0 p)) with t0.
  change (aborted (mount cors t0 p)) with false.
  change (sessionTokenTimeout (mount cors t0 p)) with (Some (t0 + 180000)%Z).
  split; [lia |].
  exists 1%Z. split; [lia |]. split; [f_equal; lia | lia].
Qed.

Lemma tick_on_schedule (t0 : Z) (h : hook) :
  on_schedule t0 h -> on_schedule t0 (tick cors h).
Proof.
  unfold on_schedule, tick. intros [Hn Hs].
  destruct (fire_debounce_outside
              (fire_interval
                 (mkHook (props_ h) (st h) (sessionToken h) (uuidNext h)
                    (sessionTokenTimeout h) (aborted h) (initialRender h)
                    (debouncedFn h) (orphaned h) (now h + 1)%Z (nextId h)
                    (pending h) (issued h))))
    as (_ & _ & Ht & Ha & _ & _ & Hw).
  rewrite Ht, Ha, Hw. clear Ht Ha Hw.
  unfold fire_interval. cbn [sessionTokenTimeout now aborted].
  destruct (aborted h) eqn:Ea.
  - rewrite Hs. cbn [aborted sessionTokenTimeout now]. split; [lia | reflexivity].
  - destruct Hs as (k & Hk & Hs & Hb). rewrite Hs.
    destruct (t0 + 180000 * k <=? now h + 1)%Z eqn:E;
      cbn [aborted sessionTokenTimeout now set_interval resetSessionToken].
    + apply Z.leb_le in E. split; [lia |].
      exists (k + 1)%Z. split; [lia |]. split; [f_equal; lia | lia].
    + apply Z.leb_gt in E. split; [lia |].
      exists k. split; [lia |]. split; [reflexivity | lia].
Qed.

Lemma step_on_schedule (t0 : Z) (h : hook) (e : event) :
  on_schedule t0 h -> on_schedule t0 (step cors h e).
Proof.
  intros H. destruct e as [p | | id body | placeId o |]; cbn [step].
  - destruct (render_outside p h) as (_ & H2 & H3 & H4 & _).
    unfold on_schedule. now rewrite H2, H3, H4.
  - now apply tick_on_schedule.
  - destruct (resolve_outside id body h) as (H2 & H3 & H4 & _).
    unfold on_schedule. now rewrite H2, H3, H4.
  - unfold getPlaceDetails.
    pose proof (fetch_outside Details placeId
                  (details_url cors (props_ h) placeId o) h) as E.
    unfold outside_requests in E. injection E as _ _ _ _ E1 E2 _ _ _ E3.
    unfold on_schedule. now rewrite E1, E2, E3.
  - unfold unmount, on_schedule in *. destruct (aborted h) eqn:Ea.
    + now rewrite Ea.
    + cbn. split; [apply H | reflexivity].
Qed.

Lemma run_on_schedule (t0 : Z) (es : list event) (h : hook) :
  on_schedule t0 h -> on_schedule t0 (run cors h es).
Proof.
  revert h. induction es as [| e es IH]; intros h H; [assumption |].
  cbn [run fold_left]. apply IH, step_on_schedule, H.
Qed.

(** On schedule, the timer the hook holds is due at a tick exactly when a
    whole number of periods since mounting elapses at that tick. *)
Lemma due_iff_elapses (t0 : Z) (h : hook) :
  on_schedule t0 h -> interval_due h = interval_elapses t0 h.
Proof.
  unfold on_schedule, interval_due, interval_elapses. intros [Hn Hs].
  destruct (aborted h).
  - now rewrite Hs.
  - destruct Hs as (k & Hk & Hs & Hb). rewrite Hs. cbn [negb andb].
    assert (Hpos : (0 <? now h + 1 - t0)%Z = true) by (apply Z.ltb_lt; lia).
    rewrite Hpos. cbn [andb].
    destruct (t0 + 180000 * k <=? now h + 1)%Z eqn:E.
    + apply Z.leb_le in E. symmetry. apply Z.eqb_eq.
      replace (now h + 1 - t0)%Z with (k * 180000)%Z by lia.
      apply Z.mod_mul. lia.
    + apply Z.leb_gt in E. symmetry. apply Z.eqb_neq. intros Hm.
      apply Z.mod_divide in Hm; [| lia]. destruct Hm as [q Hq]. lia.
Qed.

Lemma regenerates_token_event (t0 : Z) (h : hook) (e : event) :
  on_schedule t0 h -> regenerates t0 h e = token_event h e.
Proof.
  intros H. destruct e; cbn [regenerates token_event]; try reflexivity.
  symmetry. now apply due_iff_elapses.
Qed.

Lemma calm_quiet (t0 : Z) (es : list event) (h : hook) :
  on_schedule t0 h -> calm cors t0 h es = quiet cors h es.
Proof.
  revert h. induction es as [| e es IH]; intros h H; [reflexivity |].
  cbn [calm quiet]. rewrite (regenerates_token_event t0 h e H).
  f_equal. apply IH. now apply step_on_schedule.
Qed.

(** C8: in every state the hook reaches after being mounted at [t0], a task
    changes the session token exactly when it is the tick that completes a
    whole number of periods of 180000ms since mounting, on a hook still
    mounted, or the completion of a place-detail lookup; along any run with
    no such event the token stays the same. *)
Theorem session_token_changes_exactly
  (t0 : Z) (p : props) (es : list event) (e : event) (es' : list event) :
  let h := run cors (mount cors t0 p) es in
  (sessionToken (step cors h e) <> sessionToken h <-> regenerates t0 h e = true)
  /\ (calm cors t0 h es' = true -> sessionToken (run cors h es') = sessionToken h).
Proof.
  intros h.
  assert (Hs : on_schedule t0 h) by (apply run_on_schedule, mount_on_schedule).
  split.
  - rewrite (regenerates_token_event t0 h e Hs).
    apply step_token_iff. apply run_fresh, mount_fresh.
  - rewrite (calm_quiet t0 es' h Hs). apply quiet_stable.
Qed.

(** ** Debouncing *)



(** A timer that is not armed does not fire. *)
Lemma cleared_timers_rest (t : Z) (l : list (debounced * props)) :
  Forall (fun cp => timeout (fst cp) = None) l ->
  flat_map snd (map (fire_timer t) l) = [] /\ map fst (map (fire_timer t) l) = l.
Proof.
  induction 1 as [| cp l Hcp Hl [IH1 IH2]]; [split; reflexivity |].
  cbn [map flat_map]. unfold fire_timer at 1 3. rewrite Hcp. cbn.
  rewrite IH1, IH2. split; reflexivity.
Qed.

Lemma fire_timer_cleared (t : Z) (cp : debounced * props) :
  timeout (fst cp) = None \/ timeout (fst (fst (fire_timer t cp))) = None
  \/ fst (fire_timer t cp) = cp.
Proof.
  unfold fire_timer. destruct (timeout (fst cp)) as [due |] eqn:E; [| now left].
  destruct (due <=? t)%Z; [right; left; reflexivity | right; right; reflexivity].
Qed.

(** A tick on a hook whose orphaned functions are all cleared: only the
    timer of the current debounced function can fire. *)
Lemma tick_cleared (h : hook) :
  orphans_cleared h ->
  exists h1,
    (props_ h1, st h1, aborted h1, initialRender h1, debouncedFn h1, orphaned h1,
     now h1, nextId h1, pending h1, issued h1)
    = (props_ h, st h, aborted h, initialRender h, debouncedFn h, orphaned h,
       (now h + 1)%Z, nextId h, pending h, issued h)
    /\ tick cors h
       = send_all cors
           (match debouncedFn h with
            | Some cp => snd (fire_timer (now h + 1) cp)
            | None => []
            end)
           (set_timers
              (option_map (fun cp => fst (fire_timer (now h + 1) cp)) (debouncedFn h))
              (orphaned h) h1).
Proof.
  intros Ho. unfold tick.
  match goal with |- context [fire_interval ?h0] =>
    pose proof (fire_interval_outside h0) as E; set (h1 := fire_interval h0) in *
  end.
  unfold outside_session in E. cbn [props_ st aborted initialRender debouncedFn
    orphaned now nextId pending issued] in E.
  exists h1. split; [exact E |].
  injection E as _ _ _ _ Ed Eo En _ _ _.
  unfold fire_debounce. rewrite Ed, Eo, En.
  destruct (cleared_timers_rest (now h + 1) (orphaned h) Ho) as [H1 H2].
  rewrite H1, H2. cbn [app].
  destruct (debouncedFn h) as [cp |]; cbn [option_map]; [| reflexivity].
  destruct (fire_timer (now h + 1) cp) as [cp' fs]. reflexivity.
Qed.












(** ** Responses and generations of the query *)

Lemma step_after_unmount (h : hook) (e : event) :
  aborted h = true -> pending h = [] ->
  st (step cors h e) = st h /\ aborted (step cors h e) = true
  /\ pending (step cors h e) = [].
Proof.
  intros Ha Hp.
  destruct e as [p | | id body | placeId o |]; cbn [step].
  - unfold render. rewrite Ha. auto.
  - unfold tick.
    match goal with |- context [fire_debounce cors ?h0] => set (h1 := h0) end.
    destruct (fire_debounce_outside h1) as (H1 & _ & _ & H4 & _).
    rewrite H1, H4.
    pose proof (fire_interval_outside
                  (mkHook (props_ h) (st h) (sessionToken h) (uuidNext h)
                     (sessionTokenTimeout h) (aborted h) (initialRender h)
                     (debouncedFn h) (orphaned h) (now h + 1)%Z (nextId h)
                     (pending h) (issued h))) as E.
    unfold outside_session in E. cbn in E. injection E as _ E1 E2 _ _ _ _ _ E3 _.
    fold h1 in E1, E2, E3. rewrite E1, E2. repeat split; try assumption.
    unfold fire_debounce. rewrite send_all_aborted; cbn; congruence.
  - unfold resolve. rewrite Hp. cbn. auto.
  - unfold getPlaceDetails, fetch. rewrite Ha. auto.
  - unfold unmount. rewrite Ha. auto.
Qed.

Lemma run_after_unmount (es : list event) (h : hook) :
  aborted h = true -> pending h = [] -> st (run cors h es) = st h.
Proof.
  revert h. induction es as [| e es IH]; intros h Ha Hp; [reflexivity |].
  cbn [run fold_left].
  destruct (step_after_unmount h e Ha Hp) as (Hs & Ha' & Hp').
  change (fold_left (step cors) es (step cors h e))
    with (run cors (step cors h e) es).
  now rewrite IH.
Qed.

Lemma render_pending (p : props) (h : hook) :
  pending (render cors p h) = pending h.
Proof. apply render_outside. Qed.

(** C1, amended: a render with a newer query leaves the requests in flight
    in flight; while the hook is mounted, the response of any
    autocomplete request that is still in flight is dispatched to the
    reducer when it arrives, whichever query is current by then (requests
    are neither cancelled nor checked against a generation when a newer
    query starts); only teardown stops responses: once the hook is
    unmounted the same response, and whatever follows it, leaves the state
    as it was. *)
Theorem response_commits_until_unmount
  (h : hook) (id : nat) (r : request) (data : response) (es : list event)
  (p : props)
  (Hflight : find_request id (pending h) = Some r)
  (Hkind : r_kind r = Predictions)
  (Hmounted : aborted h = false) :
  find_request id (pending (step cors h (Render p))) = Some r
  /\ reducer (st h) (of_response data)
    = Some (st (step cors h (Resolve id (Some data))))
  /\ st (run cors (step cors h Unmount) (Resolve id (Some data) :: es)) = st h.
Proof.
  split; [cbn [step]; now rewrite render_pending |].
  split.
  - cbn [step]. unfold resolve. rewrite Hflight, Hkind.
    destruct (reducer_of_response_total (st h) data) as [s' Hs'].
    unfold dispatch. cbn [st set_pending]. rewrite Hs'. reflexivity.
  - rewrite run_after_unmount.
    + cbn [step]. unfold unmount. now rewrite Hmounted.
    + cbn [step]. unfold unmount. now rewrite Hmounted.
    + cbn [step]. unfold unmount. now rewrite Hmounted.
Qed.

End HookFacts.

(* ===================================================================== *)
(** * The hook on concrete runs                                           *)
(* ===================================================================== *)

Section HookRuns.

Import Autocomplete.

(** C1, the claim as worded, fails.  The user types "a"; 400ms later its
    request (number 0) is sent; the user types "ab", 400ms later request 1
    is sent and its response arrives first and is committed.  Request 0 is
    still in flight for a query that is no longer current; when its
    response arrives it replaces the results of "ab". *)
Lemma stale_response_overwrites :
  let o := mkOptions None None None None None None in
  let q := fun s => mkProps "key" s "places" o in
  let for_a := mkResponse "OK" ["Aachen"] in
  let for_ab := mkResponse "OK" ["Aberdeen"] in
  let h := run "" (mount "" 0 (q ""))
             (Render (q "a") :: ticks 400 ++ Render (q "ab") :: ticks 400
              ++ [Resolve 1 (Some for_ab)]) in
  superseded h 0
  /\ query (props_ h) = "ab"
  /\ st h = {| results := Data for_ab; isLoading := false; error := None |}
  /\ st (step "" h (Resolve 0 (Some for_a)))
     = {| results := Data for_a; isLoading := false; error := None |}
  /\ st (step "" h (Resolve 0 (Some for_a))) <> st h.
Proof.
  cbv zeta. split.
  - eexists; split; [vm_compute; reflexivity |].
    split; [reflexivity | vm_compute; discriminate].
  - split; [vm_compute; reflexivity |].
    split; [vm_compute; reflexivity |].
    split; [vm_compute; reflexivity |].
    vm_compute. discriminate.
Qed.

Lemma response_commits_until_unmount_witness :
  let o := mkOptions None None None None None None in
  let q := fun s => mkProps "key" s "places" o in
  let for_a := mkResponse "OK" ["Aachen"] in
  let h := run "" (mount "" 0 (q ""))
             (Render (q "a") :: ticks 400 ++ Render (q "ab") :: ticks 400) in
  let r := mkRequest 0 Predictions "a"
             "https://maps.googleapis.com/maps/api/place/autocomplete/json?input=a&key=key&sessiontoken="
             0 in
  find_request 0 (pending h) = Some r
  /\ find_request 0 (pending (step "" h (Render (q "abc")))) = Some r
  /\ reducer (st h) (of_response for_a)
    = Some (st (step "" h (Resolve 0 (Some for_a))))
  /\ st (run "" (step "" h Unmount) [Resolve 0 (Some for_a); Tick]) = st h.
Proof.
  cbv zeta. split; [vm_compute; reflexivity |].
  apply (response_commits_until_unmount ""
           (run "" (mount "" 0 (mkProps "key" "" "places"
                                  (mkOptions None None None None None None)))
              (Render (mkProps "key" "a" "places"
                         (mkOptions None None None None None None))
               :: ticks 400
               ++ Render (mkProps "key" "ab" "places"
                            (mkOptions None None None None None None))
               :: ticks 400))
           0%nat
           (mkRequest 0 Predictions "a"
              "https://maps.googleapis.com/maps/api/place/autocomplete/json?input=a&key=key&sessiontoken="
              0)
           (mkResponse "OK" ["Aachen"]) [Tick]
           (mkProps "key" "abc" "places" (mkOptions None None None None None None))).
  - vm_compute. reflexivity.
  - reflexivity.
  - vm_compute. reflexivity.
Defined.

(** Typing "a", "ab", "abc" with 120ms and 90ms between the keystrokes
    sends one request, for "abc". *)
Example typing_a_ab_abc :
  let o := mkOptions None None None None None None in
  let q := fun s => mkProps "key" s "places" o in
  issued (run "" (mount "" 0 (q ""))
            (Render (q "a") :: ticks 120 ++ Render (q "ab") :: ticks 90
             ++ Render (q "abc") :: ticks 400))
  = [mkRequest 0 Predictions "abc"
       "https://maps.googleapis.com/maps/api/place/autocomplete/json?input=abc&key=key&sessiontoken="
       0].
Proof. vm_compute. reflexivity. Qed.


(** The token is regenerated when the interval comes due, 180000ms after
    mounting, and not a millisecond earlier. *)
Example interval_expiry_regenerates :
  let p := mkProps "key" "" "places" (mkOptions None None None None None None) in
  sessionToken (run "" (mount "" 0 p) (ticks (Z.to_nat 179999))) = 0%nat
  /\ sessionToken (run "" (mount "" 0 p) (ticks (Z.to_nat 180000))) = 1%nat.
Proof. split; vm_compute; reflexivity. Qed.

Lemma session_token_changes_exactly_witness :
  let p := mkProps "key" "" "places" (mkOptions None None None None None None) in
  let h := run "" (mount "" 0 p) (ticks (Z.to_nat 179999)) in
  let h' := run "" (mount "" 0 p) [GetPlaceDetails "ChIJ" (mkDetailOptions None None None)] in
  (sessionToken (step "" h Tick) <> sessionToken h
   /\ sessionToken (run "" h [Render (mkProps "key" "a" "places" (opts p));
                              Resolve 0 None]) = sessionToken h)
  /\ (sessionToken (step "" h' (Resolve 0 (Some (mkResponse "OK" [])))) <> sessionToken h'
      /\ sessionToken (run "" h' [Render (mkProps "key" "a" "places" (opts p)); Tick;
                                  Resolve 0 None]) = sessionToken h').
Proof.
  cbv zeta. split.
  - destruct (session_token_changes_exactly ""
                0%Z (mkProps "key" "" "places" (mkOptions None None None None None None))
                (ticks (Z.to_nat 179999))
                Tick
                [Render (mkProps "key" "a" "places"
                           (mkOptions None None None None None None));
                 Resolve 0 None]) as [H1 H2].
    split; [apply H1; vm_compute; reflexivity | apply H2; vm_compute; reflexivity].
  - destruct (session_token_changes_exactly ""
                0%Z (mkProps "key" "" "places" (mkOptions None None None None None None))
                [GetPlaceDetails "ChIJ" (mkDetailOptions None None None)]
                (Resolve 0 (Some (mkResponse "OK" [])))
                [Render (mkProps "key" "a" "places"
                           (mkOptions None None None None None None)); Tick;
                 Resolve 0 None]) as [H1 H2].
    split; [apply H1; reflexivity | apply H2; reflexivity].
Defined.

End HookRuns.

(* ===================================================================== *)
(** * More on the reducer and the hook                                    *)
(* ===================================================================== *)

Section HookMore.

Import Autocomplete HookObs.

Variable cors : string.

(** X1: the reducer throws exactly on an ['OK'] action without payload;
    every other action, of a known type or not, gives a state. *)
Theorem reducer_throws_iff (s : state) (a : action) :
  reducer s a = None <-> type a = "OK" /\ payload a = None.
Proof.
  unfold reducer. split.
  - destruct (type a =? "LOADING") eqn:E1; [discriminate |].
    destruct (type a =? "OK") eqn:E2.
    + apply String.eqb_eq in E2. destruct (payload a); [discriminate | auto].
    + repeat match goal with
             | |- context [if ?b then _ else _] => destruct b
             end; discriminate.
  - intros [Ht Hp]. rewrite Ht, Hp. reflexivity.
Qed.

Lemma fetch_st (k : kind) (input url : string) (h : hook) :
  st (fetch k input url h) = st h.
Proof. unfold fetch. destruct (aborted h); reflexivity. Qed.

Lemma fire_debounce_st (h : hook) : st (fire_debounce cors h) = st h.
Proof. apply fire_debounce_outside. Qed.

Lemma tick_st (h : hook) : st (tick cors h) = st h.
Proof.
  unfold tick. rewrite fire_debounce_st. unfold fire_interval. cbn.
  destruct (sessionTokenTimeout h) as [due |]; [| reflexivity].
  destruct (due <=? now h + 1)%Z; reflexivity.
Qed.

Lemma step_no_commit (h : hook) (e : event) :
  may_commit h e = false -> st (step cors h e) = st h.
Proof.
  destruct e as [p | | id body | placeId o |]; cbn [step may_commit]; intros H.
  - discriminate.
  - apply tick_st.
  - unfold resolve. destruct (find_request id (pending h)) as [r |]; [| reflexivity].
    destruct body as [data |]; [| reflexivity].
    destruct (r_kind r); [discriminate | reflexivity].
  - unfold getPlaceDetails. apply fetch_st.
  - unfold unmount. destruct (aborted h); reflexivity.
Qed.

(** X2: the state of the reducer changes only through a render or through
    the parsed response of an autocomplete request in flight.  Along a run
    with neither, whatever else happens (time passing, the interval, a
    rejected or aborted fetch, detail lookups, unmounting), results,
    isLoading and error stay as they are; in particular a rejected fetch
    leaves [isLoading] at [true]. *)
Theorem state_changes_only_by_render_or_response (h : hook) (es : list event)
  (Hsilent : silent cors h es = true) :
  st (run cors h es) = st h.
Proof.
  revert h Hsilent. induction es as [| e es IH]; intros h Hs; [reflexivity |].
  cbn [silent] in Hs. apply andb_prop in Hs. destruct Hs as [He Hs].
  apply negb_true_iff in He.
  cbn [run fold_left].
  change (fold_left (step cors) es (step cors h e)) with (run cors (step cors h e) es).
  rewrite (IH _ Hs). now apply step_no_commit.
Qed.

(** X3: a render that changes a dependency on a mounted hook sets
    [isLoading] at once, before any request is sent, and keeps results and
    error. *)
Theorem render_sets_loading (h : hook) (p : props)
  (Hmounted : aborted h = false) (Hfirst : initialRender h = true)
  (Hchange : deps_eqb (props_ h) p = false) :
  st (render cors p h)
  = {| results := results (st h); isLoading := true; error := error (st h) |}
  /\ issued (render cors p h) = issued h.
Proof.
  destruct h as [pr s tk un sti ab ir df orph nw ni pe iss]. cbn in *. subst.
  unfold render. cbn. rewrite Hchange. cbn. unfold queryEffect. cbn.
  destruct s as [res [|] err];
    destruct df as [[d q] |]; cbn; split; reflexivity.
Qed.

Lemma step_untouched (h : hook) (e : event) :
  is_render e = false -> untouched h -> untouched (step cors h e).
Proof.
  unfold untouched. intros He (Hd & Ho & Hs & Hp & Hi).
  destruct e as [p | | id body | placeId o |]; cbn [step]; try discriminate.
  - destruct (tick_cleared cors h) as (h1 & E & ->);
      [unfold orphans_cleared; rewrite Ho; constructor |].
    injection E as E1 E2 E3 E4 E5 E6 E7 E8 E9 E10.
    rewrite Hd, Ho. unfold send_all. cbn. rewrite E2, E9, E10. auto.
  - unfold resolve.
    destruct (find_request id (pending h)) as [r |] eqn:Ef; [| repeat split; auto].
    assert (Hr : is_details r = true).
    { apply find_some in Ef. destruct Ef as [Hin _].
      rewrite forallb_forall in Hp. now apply Hp. }
    assert (Hf : forallb is_details (remove_request id (pending h)) = true).
    { rewrite forallb_forall in *. intros x Hx. apply Hp.
      unfold remove_request in Hx. apply filter_In in Hx. tauto. }
    destruct body as [data |]; [| cbn; repeat split; auto].
    unfold is_details in Hr. destruct (r_kind r); [discriminate |].
    cbn. repeat split; auto.
  - unfold getPlaceDetails, fetch. destruct (aborted h); [repeat split; auto |].
    cbn. rewrite !forallb_app, Hp, Hi. repeat split; auto.
  - unfold unmount. destruct (aborted h); cbn; repeat split; auto.
Qed.

(** X4: the query the hook is mounted with is never looked up.  After
    mounting, as long as the props do not change, no autocomplete request
    is sent and results, isLoading and error stay at their initial values,
    however much time passes and whatever detail lookups are made. *)
Theorem mount_query_is_not_looked_up (t0 : Z) (p : props) (es : list event)
  (Hsame : forallb (fun e => negb (is_render e)) es = true) :
  st (run cors (mount cors t0 p) es) = initialState
  /\ filter (fun r => negb (is_details r)) (issued (run cors (mount cors t0 p) es)) = [].
Proof.
  assert (H : untouched (run cors (mount cors t0 p) es)).
  { assert (H0 : untouched (mount cors t0 p)) by (unfold untouched; cbn; repeat split; reflexivity).
    revert H0. generalize (mount cors t0 p).
    induction es as [| e es IH]; intros h H0; [exact H0 |].
    cbn [forallb] in Hsame. apply andb_prop in Hsame. destruct Hsame as [He Hes].
    apply negb_true_iff in He. cbn [run fold_left].
    apply (IH Hes). now apply step_untouched. }
  destruct H as (_ & _ & Hst & _ & Hi). split; [assumption |].
  induction (issued (run cors (mount cors t0 p) es)) as [| r l IH]; [reflexivity |].
  cbn in Hi |- *. apply andb_prop in Hi. destruct Hi as [Hr Hl].
  rewrite Hr. cbn. now apply IH.
Qed.

Lemma step_aborted_sends_nothing (h : hook) (e : event) :
  aborted h = true ->
  issued (step cors h e) = issued h /\ aborted (step cors h e) = true.
Proof.
  intros Ha.
  destruct e as [p | | id body | placeId o |]; cbn [step].
  - unfold render. rewrite Ha. auto.
  - unfold tick.
    match goal with |- context [fire_interval ?h0] =>
      pose proof (fire_interval_outside h0) as E; set (h1 := fire_interval h0) in *
    end.
    unfold outside_session in E. injection E as _ _ E3 _ _ _ _ _ _ E10.
    cbn [aborted issued] in E3, E10.
    unfold fire_debounce.
    rewrite send_all_aborted; cbn [aborted issued set_timers];
      [split |]; congruence.
  - unfold resolve. destruct (find_request id (pending h)) as [r |]; [| auto].
    destruct body as [data |]; [| cbn; auto].
    destruct (r_kind r); [| cbn; auto].
    unfold dispatch. destruct (reducer _ _); cbn; auto.
  - unfold getPlaceDetails, fetch. rewrite Ha. auto.
  - unfold unmount. rewrite Ha. auto.
Qed.

(** X5: after unmounting nothing is sent any more.  The debounce timer is
    not cleared by the cleanup and still fires, a late render or a call of
    [getPlaceDetails] may still happen, but every fetch then carries the
    aborted signal and no request leaves. *)
Theorem unmounted_hook_sends_nothing (h : hook) (es : list event) :
  issued (run cors (unmount h) es) = issued h.
Proof.
  assert (Hu : issued (unmount h) = issued h /\ aborted (unmount h) = true).
  { unfold unmount. destruct (aborted h) eqn:E; [auto | split; reflexivity]. }
  destruct Hu as [Hi Ha]. rewrite <- Hi. revert Ha. generalize (unmount h). clear.
  intros h. revert h. induction es as [| e es IH]; intros h Ha; [reflexivity |].
  cbn [run fold_left].
  destruct (step_aborted_sends_nothing h e Ha) as [Hi' Ha'].
  change (fold_left (step cors) es (step cors h e)) with (run cors (step cors h e) es).
  now rewrite IH.
Qed.

(** ** Session tokens of the requests *)

Lemma render_issued (p : props) (h : hook) : issued (render cors p h) = issued h.
Proof. apply render_outside. Qed.

Lemma step_issued (h : hook) (e : event) :
  exists new, issued (step cors h e) = (issued h ++ new)%list
    /\ Forall (fun r => r_token r = sessionToken (step cors h e)) new.
Proof.
  destruct e as [p | | id body | placeId o |]; cbn [step].
  - exists []. rewrite render_issued, app_nil_r. auto.
  - unfold tick.
    match goal with |- context [fire_interval ?h0] =>
      pose proof (fire_interval_outside h0) as E; set (h1 := fire_interval h0) in *
    end.
    unfold outside_session in E. injection E as _ _ _ _ _ _ _ _ _ E10.
    cbn [issued] in E10.
    unfold fire_debounce.
    match goal with |- context [send_all cors ?ps ?h0] =>
      destruct (send_all_issued cors ps h0) as (new & Hi & Ht);
      pose proof (send_all_outside cors ps h0) as Eo
    end.
    unfold outside_requests in Eo. injection Eo as _ _ Et _ _ _ _ _ _ _.
    exists new. rewrite Hi, Et. cbn [issued sessionToken set_timers] in *.
    rewrite E10. auto.
  - exists []. rewrite app_nil_r. split; [| constructor].
    unfold resolve. destruct (find_request id (pending h)) as [r |]; [| reflexivity].
    destruct body as [data |]; [| reflexivity].
    destruct (r_kind r); [| reflexivity].
    unfold dispatch. destruct (reducer _ _); reflexivity.
  - unfold getPlaceDetails, fetch. destruct (aborted h).
    + exists []. rewrite app_nil_r. auto.
    + eexists. split; [reflexivity |]. repeat constructor.
  - exists []. rewrite app_nil_r. split; [| constructor].
    unfold unmount. destruct (aborted h); reflexivity.
Qed.

Lemma step_token_le (h : hook) (e : event) :
  (sessionToken h < uuidNext h)%nat ->
  (sessionToken h <= sessionToken (step cors h e))%nat
  /\ (sessionToken (step cors h e) < uuidNext (step cors h e))%nat.
Proof.
  intros H. pose proof (step_tok cors h e) as E. unfold tok in E.
  destruct (token_event h e); injection E as -> ->; lia.
Qed.

Lemma run_issued (es : list event) (h : hook) :
  tokens_ordered h ->
  exists new, issued (run cors h es) = (issued h ++ new)%list
    /\ Forall (fun r => (sessionToken h <= r_token r)%nat) new
    /\ tokens_ordered (run cors h es).
Proof.
  revert h. induction es as [| e es IH]; intros h Hk.
  - exists []. rewrite app_nil_r. repeat split; auto. apply Hk. apply Hk.
  - destruct Hk as [Hf Ho].
    destruct (step_issued h e) as (n1 & Hi1 & Ht1).
    destruct (step_token_le h e Hf) as [Hle Hf1].
    assert (Hk1 : tokens_ordered (step cors h e)).
    { split; [assumption |]. rewrite Hi1. apply Forall_app. split.
      - eapply Forall_impl; [| exact Ho]. cbn. intros r Hr. lia.
      - eapply Forall_impl; [| exact Ht1]. cbn. intros r Hr. lia. }
    destruct (IH _ Hk1) as (n2 & Hi2 & Ht2 & Hk2).
    exists (n1 ++ n2)%list. cbn [run fold_left].
    change (fold_left (step cors) es (step cors h e))
      with (run cors (step cors h e) es).
    rewrite Hi2, Hi1, app_assoc. split; [reflexivity |]. split; [| assumption].
    apply Forall_app. split.
    + eapply Forall_impl; [| exact Ht1]. cbn. intros r Hr. lia.
    + eapply Forall_impl; [| exact Ht2]. cbn. intros r Hr. lia.
Qed.

(** X6: a regenerated session token is never mixed with the old one.
    When the interval comes due or a detail lookup completes, every
    request sent from then on (the one of a debounce timer firing in the
    same tick included) carries a token later than that of every request
    sent before. *)
Theorem regenerated_token_separates_requests
  (t0 : Z) (p : props) (es0 : list event) (e : event) (es : list event) :
  let h := run cors (mount cors t0 p) es0 in
  token_event h e = true ->
  exists new, issued (run cors h (e :: es)) = (issued h ++ new)%list
    /\ forall r_old r_new, In r_old (issued h) -> In r_new new ->
       (r_token r_old < r_token r_new)%nat.
Proof.
  intros h He.
  assert (Hk : tokens_ordered h).
  { subst h. destruct (run_issued es0 (mount cors t0 p)) as (_ & _ & _ & Hk);
      [| exact Hk].
    split; [cbn; lia | constructor]. }
  destruct Hk as [Hf Ho].
  pose proof (step_tok cors h e) as E. unfold tok in E. rewrite He in E.
  injection E as Et Eu.
  destruct (run_issued (e :: es) h (conj Hf Ho)) as (new & Hi & _ & _).
  exists new. split; [assumption |].
  (* every new request is at or after the regenerated token *)
  destruct (step_issued h e) as (n1 & Hi1 & Ht1).
  assert (Hk1 : tokens_ordered (step cors h e)).
  { split; [rewrite Et, Eu; lia |]. rewrite Hi1. apply Forall_app. split.
    - eapply Forall_impl; [| exact Ho]. cbn. intros r Hr. lia.
    - eapply Forall_impl; [| exact Ht1]. cbn. intros r Hr. lia. }
  destruct (run_issued es _ Hk1) as (n2 & Hi2 & Ht2 & _).
  assert (Hnew : new = (n1 ++ n2)%list).
  { cbn [run fold_left] in Hi.
    change (fold_left (step cors) es (step cors h e))
      with (run cors (step cors h e) es) in Hi.
    rewrite Hi2, Hi1, <- app_assoc in Hi. now apply app_inv_head in Hi. }
  intros r_old r_new Hold Hin. subst new.
  rewrite Forall_forall in Ho, Ht1, Ht2.
  specialize (Ho _ Hold). cbn in Ho.
  apply in_app_or in Hin. destruct Hin as [Hin | Hin].
  - rewrite (Ht1 _ Hin). lia.
  - specialize (Ht2 _ Hin). cbn in Ht2. lia.
Qed.

(** ** The url of the autocomplete request *)

Lemma param_is_not_places (c : bool) (name : string) (v : option string) :
  (param c ("t" ++ name) v =? "places") = false.
Proof. unfold param. destruct c; reflexivity. Qed.

(** X7: [options.strictbounds] never reaches the request.  The url is the
    one built without it, whatever its value: the test compares the
    [types] fragment of the url, not the [type] argument, with ['places']. *)
Theorem strictbounds_is_never_sent (p : props) :
  autocomplete_url cors p = autocomplete_url cors (without_strictbounds p).
Proof.
  unfold autocomplete_url, without_strictbounds. cbn [opts types strictbounds offset
    language location radius type_ query apiKey truthy andb].
  change "types" with ("t" ++ "ypes").
  rewrite param_is_not_places, andb_false_r. reflexivity.
Qed.

Lemma quiet_issued (es : list event) (h : hook) :
  quiet cors h es = true ->
  exists new, issued (run cors h es) = (issued h ++ new)%list
    /\ Forall (fun r => r_token r = sessionToken h) new
    /\ sessionToken (run cors h es) = sessionToken h.
Proof.
  revert h. induction es as [| e es IH]; intros h Hq.
  - exists []. rewrite app_nil_r. repeat split. constructor.
  - cbn [quiet] in Hq. apply andb_prop in Hq. destruct Hq as [He Hq].
    apply negb_true_iff in He.
    pose proof (step_tok cors h e) as E. unfold tok in E. rewrite He in E.
    injection E as Et _.
    destruct (step_issued h e) as (n1 & Hi1 & Ht1).
    destruct (IH _ Hq) as (n2 & Hi2 & Ht2 & Hs2).
    exists (n1 ++ n2)%list. cbn [run fold_left].
    change (fold_left (step cors) es (step cors h e))
      with (run cors (step cors h e) es).
    rewrite Hi2, Hi1, app_assoc, Hs2, Et. repeat split.
    apply Forall_app. split.
    + eapply Forall_impl; [| exact Ht1]. cbn. intros r Hr. congruence.
    + eapply Forall_impl; [| exact Ht2]. cbn. intros r Hr. congruence.
Qed.

(** X26: requests between two regenerations form one session.  Along a
    run in which the interval does not come due and no detail lookup
    completes, every request sent, autocomplete or detail lookup, carries
    the session token the run started with. *)
Theorem requests_of_a_session_share_the_token (h : hook) (es : list event)
  (Hquiet : quiet cors h es = true) :
  exists new, issued (run cors h es) = (issued h ++ new)%list
    /\ Forall (fun r => r_token r = sessionToken h) new.
Proof.
  destruct (quiet_issued es h Hquiet) as (new & Hi & Ht & _). eauto.
Qed.

End HookMore.

(* ===================================================================== *)
(** * Properties of [debounce]                                            *)
(* ===================================================================== *)

Section DebounceFacts.

Import Autocomplete Debounce.
Local Open Scope Z_scope.

Lemma drun_app (s : timer) (os1 os2 : list op) :
  Debounce.run s (os1 ++ os2) = Debounce.run (Debounce.run s os1) os2.
Proof. apply fold_left_app. Qed.

Lemma waits_before_due (n : nat) (s : timer) (w : Z) (imm : bool) (due : Z) :
  closure_ s = mkDebounced w imm (Some due) ->
  clock s + Z.of_nat n < due ->
  Debounce.run s (waits n) = mkTimer (closure_ s) (funcRuns s) (clock s + Z.of_nat n).
Proof.
  revert s. induction n as [| n IH]; intros s Hc Hlt.
  - cbn. destruct s; cbn. now rewrite Z.add_0_r.
  - change (Debounce.run s (waits (S n)))
      with (Debounce.run (Debounce.step s Wait) (waits n)).
    assert (Hs : Debounce.step s Wait = mkTimer (closure_ s) (funcRuns s) (clock s + 1)).
    { cbn. rewrite Hc. cbn. destruct (due <=? clock s + 1) eqn:E; [| reflexivity].
      apply Z.leb_le in E. lia. }
    rewrite Hs, IH; cbn; [f_equal; lia | assumption | lia].
Qed.

Lemma waits_idle (n : nat) (s : timer) :
  timeout (closure_ s) = None ->
  Debounce.run s (waits n) = mkTimer (closure_ s) (funcRuns s) (clock s + Z.of_nat n).
Proof.
  revert s. induction n as [| n IH]; intros s Hc.
  - cbn. destruct s; cbn. now rewrite Z.add_0_r.
  - change (Debounce.run s (waits (S n)))
      with (Debounce.run (Debounce.step s Wait) (waits n)).
    assert (Hs : Debounce.step s Wait = mkTimer (closure_ s) (funcRuns s) (clock s + 1)).
    { cbn. now rewrite Hc. }
    rewrite Hs, IH; cbn; [f_equal; lia | assumption].
Qed.

Lemma waits_past_due (n : nat) (s : timer) (w : Z) (imm : bool) (due : Z) :
  closure_ s = mkDebounced w imm (Some due) ->
  clock s < due -> due <= clock s + Z.of_nat n ->
  funcRuns (Debounce.run s (waits n))
  = (if imm then funcRuns s else S (funcRuns s)).
Proof.
  intros Hc Hlt Hge.
  set (k := Z.to_nat (due - clock s - 1)).
  replace n with (k + (1 + (n - k - 1)))%nat by lia.
  unfold waits. rewrite repeat_app. fold (waits k) (waits (1 + (n - k - 1))).
  rewrite drun_app, (waits_before_due k s w imm due Hc ltac:(lia)).
  change (waits (1 + (n - k - 1))) with (Wait :: waits (n - k - 1)).
  cbn [Debounce.run fold_left].
  match goal with
  | |- funcRuns (fold_left _ _ ?x) = _ => set (s1 := x)
  end.
  change (funcRuns (Debounce.run s1 (waits (n - k - 1))) = if imm then funcRuns s else S (funcRuns s)).
  assert (H1 : closure_ s1 = mkDebounced w imm None
               /\ funcRuns s1 = if imm then funcRuns s else S (funcRuns s)).
  { subst s1. cbn. rewrite Hc. cbn.
    destruct (due <=? clock s + Z.of_nat k + 1) eqn:E.
    - cbn. destruct imm; split; reflexivity.
    - apply Z.leb_gt in E. lia. }
  destruct H1 as [Hc1 Hf1].
  rewrite waits_idle; [cbn; exact Hf1 | now rewrite Hc1].
Qed.

(** After the first call of a burst, and after every later one, the timer
    is armed [w] from now and [func] has run once if [immediate], not at
    all otherwise. *)
Lemma calls_rearm (gaps : list nat) (s : timer) (w : Z) (imm : bool) (r : nat) :
  closure_ s = mkDebounced w imm (Some (clock s + w)) -> funcRuns s = r ->
  within w gaps = true ->
  exists t, Debounce.run s (calls gaps) = mkTimer (mkDebounced w imm (Some (t + w))) r t.
Proof.
  revert s. induction gaps as [| g gaps IH]; intros s Hc Hr Hw.
  - exists (clock s). cbn. destruct s; cbn in *. now subst.
  - cbn [within forallb] in Hw. apply andb_prop in Hw. destruct Hw as [Hg Hw].
    apply Z.ltb_lt in Hg.
    cbn [calls]. rewrite drun_app.
    rewrite (waits_before_due g s w imm _ Hc ltac:(lia)).
    cbn [Debounce.run fold_left].
    match goal with
    | |- exists t, fold_left _ _ ?x = _ => set (s1 := x)
    end.
    apply (IH s1); [| | assumption].
    + subst s1. cbn. rewrite Hc. cbn. reflexivity.
    + subst s1. cbn. rewrite Hc. cbn. rewrite andb_false_r. exact Hr.
Qed.

(** X8: a burst of calls, each less than [wait] after the one before,
    runs [func] exactly once.  With [immediate] it runs at the first call
    and the timer only ends the burst; without, it runs when the timer
    fires, [wait] after the last call, and not before. *)
Theorem debounce_runs_func_once_per_burst
  (w : Z) (imm : bool) (t0 : Z) (gaps : list nat) (n : nat)
  (Hpos : 0 < w) (Hgaps : within w gaps = true) :
  funcRuns (Debounce.run (start w imm t0) (Call :: calls gaps ++ waits n))
  = if imm then 1%nat else if w <=? Z.of_nat n then 1%nat else 0%nat.
Proof.
  change (Debounce.run (start w imm t0) (Call :: calls gaps ++ waits n))
    with (Debounce.run (Debounce.step (start w imm t0) Call) (calls gaps ++ waits n)).
  rewrite drun_app.
  set (s1 := Debounce.step (start w imm t0) Call).
  assert (Hc1 : closure_ s1 = mkDebounced w imm (Some (clock s1 + w))) by reflexivity.
  assert (Hr1 : funcRuns s1 = if imm then 1%nat else 0%nat).
  { subst s1. cbn. rewrite andb_true_r. reflexivity. }
  destruct (calls_rearm gaps s1 w imm _ Hc1 Hr1 Hgaps) as (t & Ht).
  rewrite Ht.
  destruct (w <=? Z.of_nat n) eqn:E.
  - apply Z.leb_le in E.
    rewrite (waits_past_due n _ w imm (t + w)); cbn; [| reflexivity | lia | lia].
    destruct imm; reflexivity.
  - apply Z.leb_gt in E.
    rewrite (waits_before_due n _ w imm (t + w)); cbn; [| reflexivity | lia].
    destruct imm; reflexivity.
Qed.

(** X9: [clear] cancels the pending call: however long one waits after it,
    [func] does not run.  It also ends the burst: with [immediate], the
    next call runs [func] at once. *)
Theorem clear_cancels_pending_call (s : timer) (n : nat) :
  funcRuns (Debounce.run s (Clear :: waits n)) = funcRuns s
  /\ funcRuns (Debounce.run s (Clear :: waits n ++ [Call]))
     = if immediate (closure_ s) then S (funcRuns s) else funcRuns s.
Proof.
  cbn [Debounce.run fold_left]. rewrite fold_left_app.
  change (fold_left Debounce.step (waits n) ?x) with (Debounce.run x (waits n)).
  rewrite waits_idle by reflexivity. cbn.
  split; [reflexivity |]. rewrite andb_true_r. reflexivity.
Qed.

End DebounceFacts.

(* ===================================================================== *)
(** * More on the modal                                                   *)
(* ===================================================================== *)

Section ModalMore.

Import Modal ModalKeys.

Lemma matches_tag (e : element) (t : option string) :
  matches {| tag := tag e; tabindex := t |} = matches e.
Proof. reflexivity. Qed.

Lemma others_toggled (type : toggle) (c : list element) :
  others (toggleTabIndex type c) = others c.
Proof.
  unfold others, toggleTabIndex.
  induction c as [| e c IH]; [reflexivity |].
  cbn [map filter]. rewrite IH.
  destruct (matches e) eqn:E; [destruct type |];
    cbn beta iota; rewrite ?matches_tag, E; reflexivity.
Qed.

Lemma tags_toggled (type : toggle) (c : list element) :
  map tag (toggleTabIndex type c) = map tag c.
Proof.
  unfold toggleTabIndex. rewrite map_map. apply map_ext.
  intros e. destruct (matches e); [destruct type |]; reflexivity.
Qed.

Lemma step_root (m : modal) (e : event) :
  option_map others (rootContainer (doc (step m e)))
    = option_map others (rootContainer (doc m))
  /\ option_map (map tag) (rootContainer (doc (step m e)))
    = option_map (map tag) (rootContainer (doc m)).
Proof.
  destruct e as [b | | children | y]; cbn [step].
  - unfold setOpen. destruct (Bool.eqb b (isOpen m)); [split; reflexivity |].
    match goal with |- context [effect ?m'] => set (m1 := m') end.
    destruct (effect_root m1) as [Hr _]. rewrite Hr.
    assert (Hd : rootContainer (doc m1) = rootContainer (doc m))
      by (apply (cleanup_root m)).
    rewrite Hd. destruct (rootContainer (doc m)) as [r |]; cbn [option_map];
      [| split; reflexivity].
    now rewrite others_toggled, tags_toggled.
  - unfold runTimeout. destruct (deferred m) as [[|] |]; split; reflexivity.
  - split; reflexivity.
  - split; reflexivity.
Qed.

(** X10: what the selector does not find is never touched.  Over any run,
    the root container keeps its elements and their tags, and every
    element that is not a button, a, input, textarea or select keeps its
    tabindex: a [div] with [tabindex="0"] stays in the tab order while the
    modal is open. *)
Theorem unselected_elements_keep_tabindex
  (d : document) (open0 focusAfterExit : bool) (es : list event) :
  option_map others (rootContainer (doc (run (mount open0 focusAfterExit d) es)))
    = option_map others (rootContainer d)
  /\ option_map (map tag) (rootContainer (doc (run (mount open0 focusAfterExit d) es)))
    = option_map (map tag) (rootContainer d).
Proof.
  assert (H0 : option_map others (rootContainer (doc (mount open0 focusAfterExit d)))
               = option_map others (rootContainer d)
            /\ option_map (map tag) (rootContainer (doc (mount open0 focusAfterExit d)))
               = option_map (map tag) (rootContainer d)).
  { unfold mount.
    match goal with |- context [effect ?m'] => set (m1 := m') end.
    destruct (effect_root m1) as [Hr _]. rewrite Hr.
    assert (Hd : rootContainer (doc m1) = rootContainer d).
    { subst m1. cbn. unfold createModal. destruct (modalContainer d); reflexivity. }
    rewrite Hd. destruct (rootContainer d) as [r |]; cbn [option_map];
      [| split; reflexivity].
    now rewrite others_toggled, tags_toggled. }
  revert H0. generalize (mount open0 focusAfterExit d).
  induction es as [| e es IH]; intros m H0; [exact H0 |].
  cbn [run fold_left]. apply IH.
  destruct (step_root m e) as [H1 H2]. destruct H0 as [H3 H4].
  split; congruence.
Qed.

(** X11: [toggleTabIndex] does not remember.  Turning a container off and
    on again gives it back as it was exactly when none of the elements the
    selector finds had a [tabindex] attribute; one that had loses it. *)
Theorem toggle_off_on_round_trip (c : list element) :
  toggleTabIndex on (toggleTabIndex off c) = c
  <-> Forall (fun e => matches e = true -> tabindex e = None) c.
Proof.
  unfold toggleTabIndex. induction c as [| e c IH].
  - split; [constructor | reflexivity].
  - cbn [map]. split.
    + intros H. injection H as He Hc. constructor; [| now apply IH].
      intros Hm. rewrite Hm in He. rewrite matches_tag, Hm in He.
      rewrite <- He. reflexivity.
    + intros H. inversion H as [| ? ? He Hc]; subst.
      f_equal; [| now apply IH].
      destruct (matches e) eqn:Hm.
      * rewrite matches_tag, Hm. cbn. destruct e as [t ti]. cbn in *.
        now rewrite (He eq_refl).
      * now rewrite Hm.
Qed.

Lemma effect_one_handler (m : modal) :
  keydown (doc m) = [] -> one_handler (effect m).
Proof.
  intros Hk. unfold one_handler, effect.
  destruct (isOpen m) eqn:E.
  - eexists. split; [reflexivity |]. split; [reflexivity |].
    destruct (hasExitButton m); cbn; rewrite Hk; reflexivity.
  - destruct (hasFocusAfterExit m), (initialRender m); cbn;
      (eexists; split; [reflexivity |]; split; [reflexivity |]);
      cbn; rewrite Hk; reflexivity.
Qed.

Lemma cleanup_no_handler (m : modal) :
  one_handler m -> keydown (doc (cleanup m)) = [].
Proof.
  intros (cl & Hl & Hc & Hk). unfold cleanup. rewrite Hl, Hc.
  destruct (isOpen m); cbn; rewrite Hk; cbn; [| reflexivity].
  now rewrite Nat.eqb_refl.
Qed.

Lemma step_one_handler (m : modal) (e : event) :
  one_handler m -> one_handler (step m e).
Proof.
  intros H. destruct e as [b | | children | y]; cbn [step].
  - unfold setOpen. destruct (Bool.eqb b (isOpen m)); [assumption |].
    apply effect_one_handler. cbn. now apply cleanup_no_handler.
  - unfold runTimeout. destruct (deferred m) as [[|] |]; exact H.
  - exact H.
  - exact H.
Qed.

Lemma run_one_handler (es : list event) (m : modal) :
  one_handler m -> one_handler (run m es).
Proof.
  revert m. induction es as [| e es IH]; intros m H; [assumption |].
  cbn [run fold_left]. apply IH, step_one_handler, H.
Qed.

(** X12: the keyboard handler does not leak.  On a page where no handler
    of the modal is registered yet, after mounting and any run, one
    [handleKeyDown] is registered while the modal is open and none while
    it is closed; so a press of Escape calls [handleExit] once when open,
    and no key calls it otherwise. *)
Theorem escape_calls_handleExit_once
  (d : document) (open0 focusAfterExit : bool) (es : list event) (key : string)
  (Hnone : keydown d = []) :
  let m := run (mount open0 focusAfterExit d) es in
  length (keydown (doc m)) = (if isOpen m then 1 else 0)%nat
  /\ keydownEvent key m = if (key =? "Escape") && isOpen m then 1%nat else 0%nat.
Proof.
  intros m.
  assert (H : one_handler m).
  { apply run_one_handler. unfold mount. apply effect_one_handler.
    cbn. unfold createModal. destruct (modalContainer d); exact Hnone. }
  destruct H as (cl & _ & _ & Hk). unfold keydownEvent, handleKeyDown. rewrite Hk.
  destruct (isOpen m); cbn; destruct (key =? "Escape"); split; reflexivity.
Qed.

Lemma step_pass_done (m : modal) (e : event) : pass_done m -> pass_done (step m e).
Proof.
  intros [Hi Hd]. destruct e as [b | | children | y]; cbn [step].
  - unfold setOpen. destruct (Bool.eqb b (isOpen m)); [split; assumption |].
    assert (Hc : initialRender (cleanup m) = true /\ deferred (cleanup m) = None).
    { unfold cleanup. destruct (lastEffect m) as [cl |]; [| split; assumption].
      cbn. split; assumption. }
    destruct Hc as [Hci Hcd].
    unfold effect, pass_done. cbn. rewrite Hci, Hcd.
    destruct b; [destruct (hasExitButton (cleanup m)) |
                 destruct (hasFocusAfterExit (cleanup m))]; cbn; split; reflexivity.
  - unfold runTimeout. rewrite Hd. split; assumption.
  - split; assumption.
  - split; assumption.
Qed.

(** X13: the deferred pass.  When the modal is mounted closed on a page
    that has no node with its id yet, and the portal then renders its
    content, the pass takes every button, a, input, textarea and select of
    the modal out of the tab order, although no effect ran after the
    content appeared; and the pass is scheduled only that once, whatever
    happens later. *)
Theorem deferred_pass_hides_initial_content
  (d : document) (focusAfterExit : bool) (children : list element) (es : list event)
  (Hnew : modalContainer d = None) :
  let m := run (mount false focusAfterExit d) [RenderPortal children; Timeout] in
  (exists c, modalContainer (doc m) = Some c
     /\ length c = S (length children)
     /\ forall e, In e c -> matches e = true -> untabbable e)
  /\ deferred (run m es) = None.
Proof.
  intros m. split.
  - exists (toggleTabIndex off (mkElement "button" None :: children)).
    split; [| split].
    + subst m. destruct d as [r [c0 |] bs py ms kd ae]; [discriminate |].
      cbn. destruct focusAfterExit; reflexivity.
    + unfold toggleTabIndex. now rewrite length_map.
    + intros e Hin Hm. unfold untabbable. now rewrite (matches_toggled _ _ _ Hin Hm).
  - assert (H : pass_done m).
    { subst m. unfold pass_done. destruct d as [r [c0 |] bs py ms kd ae];
        cbn; destruct focusAfterExit; split; reflexivity. }
    revert H. generalize m. clear m.
    induction es as [| e es IH]; intros m H; [apply H |].
    cbn [run fold_left]. apply IH. now apply step_pass_done.
Qed.

(** X14: unmounting an open modal leaves the page half restored.  The
    cleanup that runs on unmount removes the body style and the key
    handler, but not the tabindex it put on the background: every element
    the selector finds in the root container stays out of the tab order. *)
Theorem unmount_while_open_keeps_background_untabbable
  (d : document) (open0 focusAfterExit : bool) (es : list event)
  (els : list element) (e : element)
  (Hnone : keydown d = []) :
  let m := run (mount open0 focusAfterExit d) es in
  isOpen m = true ->
  rootContainer (doc (cleanup m)) = Some els -> In e els -> matches e = true ->
  bodyStyle (doc (cleanup m)) = None
  /\ keydown (doc (cleanup m)) = []
  /\ untabbable e.
Proof.
  intros m Hopen Hroot Hin Hsel.
  assert (H1 : one_handler m).
  { apply run_one_handler. unfold mount. apply effect_one_handler.
    cbn. unfold createModal. destruct (modalContainer d); exact Hnone. }
  split; [| split].
  - destruct H1 as (cl & Hl & Hc & _). unfold cleanup. rewrite Hl, Hc, Hopen. reflexivity.
  - now apply cleanup_no_handler.
  - destruct (cleanup_root m) as [Hr _]. rewrite Hr in Hroot.
    assert (Hb : background_ok m)
      by (apply run_background_ok; unfold mount; apply effect_background_ok).
    apply (Hb els e Hroot Hin Hsel). exact Hopen.
Qed.

(** X15: where the focus goes.  Opening moves it to the exit button when
    the portal has rendered one; closing moves it to [focusAfterExit] when
    that prop is given and leaves it where it is otherwise.  Mounting
    closed with [focusAfterExit] moves the focus there at once, and a modal
    mounted open does not focus its exit button, which is not rendered
    yet. *)
Theorem focus_follows_open_and_close (m : modal) (d : document) (b : bool) :
  (isOpen m = false ->
   activeElement (doc (setOpen true m))
   = if hasExitButton m then Some ExitButton else activeElement (doc m))
  /\ (isOpen m = true ->
      activeElement (doc (setOpen false m))
      = if hasFocusAfterExit m then Some FocusAfterExit else activeElement (doc m))
  /\ activeElement (doc (mount false true d)) = Some FocusAfterExit
  /\ activeElement (doc (mount true b d)) = activeElement d.
Proof.
  assert (Hc : activeElement (doc (cleanup m)) = activeElement (doc m)
               /\ hasExitButton (cleanup m) = hasExitButton m
               /\ hasFocusAfterExit (cleanup m) = hasFocusAfterExit m
               /\ initialRender (cleanup m) = initialRender m).
  { unfold cleanup. destruct (lastEffect m) as [cl |]; [| repeat split].
    destruct (c_isOpen cl); cbn; repeat split. }
  destruct Hc as (Ha & He & Hf & Hi).
  split; [| split; [| split]].
  - intros Ho. unfold setOpen. rewrite Ho. cbn [Bool.eqb]. unfold effect. cbn.
    rewrite He. destruct (hasExitButton m); cbn; [reflexivity | exact Ha].
  - intros Ho. unfold setOpen. rewrite Ho. cbn [Bool.eqb]. unfold effect. cbn.
    rewrite Hf, Hi. destruct (hasFocusAfterExit m), (initialRender m); cbn;
      first [reflexivity | exact Ha].
  - destruct d as [r [c0 |] bs py ms kd ae]; reflexivity.
  - destruct d as [r [c0 |] bs py ms kd ae]; reflexivity.
Qed.

End ModalMore.

(* ===================================================================== *)
(** * More on the scroll animator                                         *)
(* ===================================================================== *)

Section ScrollMore.

Import Scroll ScrollObs.
Local Open Scope Q_scope.

Lemma scroll_lifecycle (a : args) (tr : option Q) : lifecycle a (scroll a tr).
Proof.
  unfold scroll, animate, lifecycle, running, finishing. cbn.
  destruct (Qltb _ _); cbn; [left | right; left]; repeat split.
Qed.

Lemma step_lifecycle (a : args) (s : animator) (e : event) :
  lifecycle a s -> lifecycle a (step a s e).
Proof.
  intros [(Hf & Ht & Hc & Hu) | [(Hf & Ht & Hc & Hu) | Hd]];
    destruct e as [t | |]; cbn [step]; unfold lifecycle, running, finishing.
  - rewrite Hf. unfold animate. destruct (Qltb _ _); cbn;
      [left | right; left]; repeat split; assumption.
  - rewrite Ht. left. repeat split; assumption.
  - left. repeat split; assumption.
  - rewrite Hf. right; left. repeat split; assumption.
  - rewrite Ht. right; right. unfold completed, complete. now rewrite Hc, Hu.
  - right; left. repeat split; assumption.
  - unfold completed in *. subst s. cbn. right; right. reflexivity.
  - unfold completed in *. subst s. cbn. right; right. reflexivity.
  - right; right. exact Hd.
Qed.

Lemma run_lifecycle (a : args) (es : list event) (s : animator) :
  lifecycle a s -> lifecycle a (run a s es).
Proof.
  revert s. induction es as [| e es IH]; intros s H; [assumption |].
  cbn [run fold_left]. apply IH, step_lifecycle, H.
Qed.

Lemma completed_is_terminal (a : args) (es : list event) (s : animator) :
  completed a s -> run a s es = s.
Proof.
  intros H. induction es as [| e es IH]; [reflexivity |].
  cbn [run fold_left].
  assert (Hs : step a s e = s)
    by (unfold completed in H; subst s; destruct e; reflexivity).
  rewrite Hs. exact IH.
Qed.

(** X16: an animation ends once.  However frames, timeouts and the
    consumer going away interleave after [scroll], the callback has run at
    most once, a frame and the completion timeout are never pending
    together, and once the completion step has run no later frame or
    timeout changes the transform or the scroll position again. *)
Theorem animation_completes_at_most_once
  (a : args) (tr : option Q) (es es' : list event) :
  let s := run a (scroll a tr) es in
  (callbackRuns s <= 1)%nat
  /\ (frameRequested s && timeoutPending s = false)
  /\ ((callbackRuns s = 1)%nat -> run a s es' = s).
Proof.
  intros s.
  assert (H : lifecycle a s) by (apply run_lifecycle, scroll_lifecycle).
  destruct H as [(Hf & Ht & Hc & _) | [(Hf & Ht & Hc & _) | Hd]].
  - rewrite Hf, Ht, Hc. repeat split; [lia | discriminate].
  - rewrite Hf, Ht, Hc. repeat split; [lia | discriminate].
  - split; [| split].
    + rewrite Hd. cbn. destruct (hasCallback a); lia.
    + rewrite Hd. reflexivity.
    + intros _. now apply completed_is_terminal.
Qed.

(** X17: the animation always reaches its end.  From whatever point the
    run has reached, a frame at or after [startTime + duration] followed by
    the timeout leaves the base element at [translateY(0px)], the last call
    of [window.scrollTo] made with the cached target position (which the
    browser clamps to the scroll range), nothing pending, and the callback
    called once if one was passed; if none was passed, the run has ended in
    one uncaught [TypeError], thrown after the transform and the scroll
    position were set. *)
Theorem animation_reaches_completion
  (a : args) (tr : option Q) (es : list event) (t : Z)
  (Hdue : duration a <= inject_Z (t - startTime a)) :
  run a (scroll a tr) (es ++ [Frame t; Timeout])
  = mkAnimator (Some 0) (Some (cachePosition a)) false false
      (if hasCallback a then 1%nat else 0%nat)
      (if hasCallback a then 0%nat else 1%nat).
Proof.
  unfold run. rewrite fold_left_app. fold (run a (scroll a tr) es).
  assert (H : lifecycle a (run a (scroll a tr) es))
    by (apply run_lifecycle, scroll_lifecycle).
  set (s := run a (scroll a tr) es) in *. clearbody s.
  apply Qltb_ge in Hdue.
  destruct H as [(Hf & Ht & Hc & Hu) | [(Hf & Ht & Hc & Hu) | Hd]];
    cbn [fold_left step].
  - rewrite Hf. unfold animate. rewrite Hdue. cbn. unfold complete. now rewrite Hc, Hu.
  - rewrite Hf, Ht. unfold complete. now rewrite Hc, Hu.
  - unfold completed in Hd. subst s. reflexivity.
Qed.

Lemma mul_unit (x y : Q) :
  0 <= x -> x < 1 -> 0 <= y -> y < 1 -> 0 <= x * y /\ x * y < 1.
Proof.
  intros Hx0 Hx1 Hy0 Hy1.
  assert (H : 0 <= x * (1 - y)) by (apply Qmult_le_0_compat; lra).
  assert (H' : 0 <= x * y) by (apply Qmult_le_0_compat; lra).
  assert (E : x * (1 - y) == x - x * y) by ring.
  rewrite E in H. split; [exact H' |].
  apply Qlt_minus_iff. apply Qlt_minus_iff in Hx1.
  assert (E2 : 1 + - (x * y) == (1 + - x) + (x - x * y)) by ring.
  rewrite E2.
  apply (Qlt_le_trans _ ((1 + - x) + 0)); [now rewrite Qplus_0_r |].
  apply Qplus_le_r. exact H.
Qed.

Lemma easeInQuart_unit (t : Q) : 0 <= t -> t < 1 -> 0 <= easeInQuart t /\ easeInQuart t < 1.
Proof.
  intros H0 H1. unfold easeInQuart.
  destruct (mul_unit t t H0 H1 H0 H1) as [H2 H3].
  destruct (mul_unit _ t H2 H3 H0 H1) as [H4 H5].
  exact (mul_unit _ t H4 H5 H0 H1).
Qed.

(** X18: with the default easing [t => t * t * t * t] a frame within the
    duration never takes the overshoot branch; the translate it applies is
    the fourth power of the elapsed fraction times the final translate, a
    share of the way that is at least 0 and less than 1. *)
Theorem default_easing_stays_within_target
  (top off dur y0 : Q) (cb : bool) (t0 : Z) (elapsed : Q)
  (Hpos : 0 <= elapsed) (Hlt : elapsed < dur) :
  let a := mkArgs top off dur easeInQuart cb y0 t0 in
  let share := easeInQuart (elapsed / dur) in
  0 <= share /\ share < 1
  /\ translate a elapsed == share * finalTranslate a.
Proof.
  intros a share.
  destruct (ratio_in_unit_interval elapsed dur Hpos Hlt) as [H0 H1].
  destruct (easeInQuart_unit _ H0 H1) as [H2 H3].
  split; [exact H2 | split; [exact H3 |]].
  unfold translate. cbn [easingFn duration targetTop offset a].
  fold share.
  assert (Hb : Qltb 1 share = false) by (apply Qltb_ge, Qlt_le_weak; exact H3).
  rewrite Hb. unfold finalTranslate. cbn [targetTop offset a]. ring.
Qed.

End ScrollMore.

(* ===================================================================== *)
(** * Properties of the navigation demo                                   *)
(* ===================================================================== *)

Section NavFacts.

Import NavDemo NavObs.

Lemma section_keeps_nav (b : bool) (x : jsval) (d : demo) :
  isNavShowing (st (sectionCallback b x d)) = isNavShowing (st d).
Proof.
  unfold sectionCallback. destruct b; [reflexivity |].
  destruct (strict_eq (currentSection d) x && js_truthy (previousSection d));
    reflexivity.
Qed.

(** X19: the nav shows exactly while the banner is out of view.  After any
    batches of entries from both observers, [isNavShowing] is the negation
    of what the banner observer reported last, and is still the initial
    value when it has reported nothing; entries for the sections never
    change it. *)
Theorem nav_shows_while_banner_is_out (d : demo) (es : list entry) :
  isNavShowing (st (observe d es))
  = match last_banner es with
    | Some isIntersecting => negb isIntersecting
    | None => isNavShowing (st d)
    end.
Proof.
  revert d. induction es as [| e es IH]; intros d; [reflexivity |].
  cbn [observe fold_left last_banner]. fold (observe (deliver d e) es).
  rewrite IH. destruct (last_banner es) as [b |]; [reflexivity |].
  destruct e as [b | b x]; cbn [deliver].
  - destruct b; reflexivity.
  - apply section_keeps_nav.
Qed.

Lemma deliver_in_step (d : demo) (e : entry) : in_step d -> in_step (deliver d e).
Proof.
  unfold in_step. intros H. destruct e as [b | b x]; cbn [deliver].
  - destruct b; exact H.
  - unfold sectionCallback. destruct b; [reflexivity |].
    destruct (strict_eq (currentSection d) x && js_truthy (previousSection d));
      [reflexivity | exact H].
Qed.

(** X20: the highlight and the callback never disagree.  After any
    entries, the section the reducer has as [currentlyFocusedSection] is
    the one the callback holds in [currentSection]: every assignment of
    the variable comes with a dispatch of the same id. *)
Theorem highlight_is_current_section (es : list entry) :
  currentlyFocusedSection (st (observe mounted es))
  = currentSection (observe mounted es).
Proof.
  assert (H : in_step mounted) by reflexivity.
  revert H. generalize mounted.
  induction es as [| e es IH]; intros d H; [exact H |].
  cbn [observe fold_left]. apply IH. now apply deliver_in_step.
Qed.

Lemma leave_reverted (d : demo) (y : jsval) :
  reverted d -> sectionCallback false y d = d.
Proof.
  intros [Hs Hp]. unfold sectionCallback.
  destruct (strict_eq (currentSection d) y && js_truthy (previousSection d));
    [| reflexivity].
  destruct d as [[nav foc] cur prev]. unfold in_step in Hs. cbn in *. subst.
  reflexivity.
Qed.

(** X21: the callback remembers one section back and no more.  When the
    current section leaves and an earlier section was seen, the highlight
    goes back to that section; after that, sections leaving change nothing
    until a section enters again, even when the section that leaves is the
    highlighted one. *)
Theorem leave_reverts_one_step (d : demo) (x : jsval) (ys : list jsval)
  (Hcur : strict_eq (currentSection d) x = true)
  (Hprev : js_truthy (previousSection d) = true) :
  let d1 := sectionCallback false x d in
  currentlyFocusedSection (st d1) = previousSection d
  /\ observe d1 (map (Section_ false) ys) = d1.
Proof.
  intros d1.
  assert (H1 : reverted d1 /\ currentlyFocusedSection (st d1) = previousSection d).
  { subst d1. unfold sectionCallback. rewrite Hcur, Hprev. cbn.
    repeat split. }
  destruct H1 as [Hr Hf]. split; [exact Hf |].
  induction ys as [| y ys IH]; [reflexivity |].
  cbn [map observe fold_left deliver]. rewrite (leave_reverted d1 y Hr). exact IH.
Qed.

Lemma cleanup_frames (n : nav) : one_loop n -> frames (cleanup n) = [].
Proof.
  intros (k & Hl & _ & _ & H). unfold cleanup. rewrite Hl. cbn.
  destruct (isShowing n).
  - destruct H as [c Hc]. rewrite Hc. cbn. now rewrite Nat.eqb_refl.
  - destruct H as [Hc _]. now rewrite Hc.
Qed.

Lemma effect_one_loop (c : measures) (y : Q) (n : nav) :
  frames n = [] -> one_loop (effect c y n).
Proof.
  intros Hf. unfold one_loop, effect. destruct (isShowing n) eqn:E; cbn.
  - exists (runs n). rewrite Hf. cbn. repeat split; [lia | | eauto].
    constructor; [cbn; lia | constructor].
  - exists (runs n). rewrite Hf. repeat split; [lia | constructor].
Qed.

Lemma step_one_loop (n : nav) (e : event) :
  is_unmount e = false -> one_loop n -> one_loop (NavDemo.step n e).
Proof.
  intros He H. destruct e as [b c y | y |]; cbn [NavDemo.step]; [| | discriminate].
  - destruct (Bool.eqb b (isShowing n)); [exact H |].
    apply effect_one_loop. cbn. now apply cleanup_frames.
  - destruct H as (k & Hl & Hk & Hall & H). exists k. unfold animationFrame. cbn.
    repeat split; try assumption.
    destruct (isShowing n); [exact H |].
    destruct H as [Hf Ht]. rewrite Hf. cbn. split; [reflexivity | exact Ht].
Qed.

(** X22: the progress bar runs one loop while the nav shows and none
    otherwise.  After mounting and any changes of [isShowing] and animation
    frames, exactly one frame is requested while the nav is showing; while
    it is hidden none is, and the scaler is at [scaleY(0)]; and unmounting
    cancels the frame that is left. *)
Theorem progress_bar_runs_one_loop
  (b : bool) (c : measures) (y : Q) (es : list event)
  (Hmounted : forallb (fun e => negb (is_unmount e)) es = true) :
  let n := NavDemo.run (navMount b c y) es in
  length (frames n) = (if isShowing n then 1 else 0)%nat
  /\ (isShowing n = false -> transform n = ScaleZero)
  /\ frames (NavDemo.step n Unmount_) = [].
Proof.
  intros n.
  assert (H : one_loop n).
  { subst n. assert (H0 : one_loop (navMount b c y))
      by (unfold navMount; now apply effect_one_loop).
    revert H0. generalize (navMount b c y).
    induction es as [| e es IH]; intros n H0; [exact H0 |].
    cbn [forallb] in Hmounted. apply andb_prop in Hmounted.
    destruct Hmounted as [He Hes]. apply negb_true_iff in He.
    cbn [NavDemo.run fold_left]. apply (IH Hes). now apply step_one_loop. }
  split; [| split].
  - destruct H as (k & _ & _ & _ & H). destruct (isShowing n).
    + destruct H as [c' Hc]. now rewrite Hc.
    + destruct H as [Hf _]. now rewrite Hf.
  - intros Hh. destruct H as (k & _ & _ & _ & H). rewrite Hh in H. apply H.
  - cbn [NavDemo.step]. now apply cleanup_frames.
Qed.

End NavFacts.

(* ===================================================================== *)
(** * Properties of [mapPropsToChildren]                                  *)
(* ===================================================================== *)

Section NotesFacts.

Import NotesApp.

Variable currentEditingIndex : Z.

Lemma recursiveMap_element (dn : option string) (added : option (nat * bool))
  (cs : list child) (n : nat) :
  recursiveMap currentEditingIndex (Element dn added cs) n
  = if is_note dn then
      ([Element dn (noteProps currentEditingIndex n) cs], S n)
    else
      let '(cs', n') := mapAll currentEditingIndex cs n in
      ([Element dn added cs'], n').
Proof.
  cbn. destruct (is_note dn); [reflexivity |].
  match goal with
  | |- (let '(_, _) := ?f cs n in _) = _ =>
      assert (E : forall l k, f l k = mapAll currentEditingIndex l k)
  end.
  { induction l as [| x l IH]; intros k; [reflexivity |].
    cbn. destruct (recursiveMap currentEditingIndex x k) as [x' n1].
    now rewrite IH. }
  now rewrite E.
Qed.

Local Abbreviation mapped := (NotesApp.mapped currentEditingIndex).
Local Abbreviation mappedAll := (NotesApp.mappedAll currentEditingIndex).

Lemma mappedAll_nil : mappedAll [].
Proof. intros n. cbn. split; [reflexivity | lia]. Qed.

Lemma mappedAll_cons (c : child) (l : list child) :
  mapped c -> mappedAll l -> mappedAll (c :: l).
Proof.
  intros Hc Hl n. cbn [mapAll].
  destruct (Hc n) as (Hc1 & Hc2).
  destruct (recursiveMap currentEditingIndex c n) as [c' n1] eqn:E1.
  cbn [fst snd] in *.
  destruct (Hl n1) as (Hl1 & Hl2).
  destruct (mapAll currentEditingIndex l n1) as [l' n2] eqn:E2.
  cbn [fst snd] in *.
  unfold notesOf in *. cbn [flat_map]. rewrite flat_map_app.
  rewrite length_app, seq_app, map_app, Hc1, Hl1, Hl2.
  subst n1. split; [reflexivity | lia].
Qed.

Lemma mapped_element (dn : option string) (added : option (nat * bool))
  (cs : list child) :
  mappedAll cs -> mapped (Element dn added cs).
Proof.
  intros Hcs n. rewrite recursiveMap_element. cbn [notes].
  destruct (is_note dn) eqn:E.
  - cbn [fst snd notesOf flat_map notes]. rewrite E. cbn. split; [reflexivity | lia].
  - destruct (Hcs n) as (H1 & H2).
    destruct (mapAll currentEditingIndex cs n) as [cs' n'] eqn:E2.
    cbn [fst snd notesOf flat_map notes] in *. rewrite E, app_nil_r.
    unfold notesOf in *. split; assumption.
Qed.

Lemma mapped_all (c : child) : mapped c.
Proof.
  revert c. fix IH 1. intros [| s | | dn added cs].
  - intros n. cbn. split; [reflexivity | lia].
  - intros n. cbn. split; [reflexivity | lia].
  - intros n. cbn. split; [reflexivity | lia].
  - apply mapped_element. induction cs as [| x l IHl].
    + apply mappedAll_nil.
    + apply mappedAll_cons; [apply IH | exact IHl].
Qed.

Lemma mappedAll_all (l : list child) : mappedAll l.
Proof.
  induction l as [| c l IH]; [apply mappedAll_nil |].
  apply mappedAll_cons; [apply mapped_all | exact IH].
Qed.

(** X23: the notes are numbered in document order.  Whatever the nesting
    of the children, the notes of the result, read from top to bottom,
    carry the indexes 0, 1, 2, ... without gap or repeat, each with
    [isInEditingMode] telling whether its index is [currentEditingIndex];
    a note inside a note is not counted. *)
Theorem notes_are_indexed_in_document_order (children : list child) :
  notesOf (mapPropsToChildren currentEditingIndex children)
  = map (noteProps currentEditingIndex) (seq 0 (length (notesOf children))).
Proof. unfold mapPropsToChildren. apply mappedAll_all. Qed.

Lemma editing_seq (k a : nat) :
  editing (map (noteProps currentEditingIndex) (seq a k))
  = if ((Z.of_nat a <=? currentEditingIndex)
        && (currentEditingIndex <? Z.of_nat (a + k)))%Z then 1%nat else 0%nat.
Proof.
  unfold editing. revert a. induction k as [| k IH]; intros a.
  - cbn. rewrite Nat.add_0_r.
    destruct (Z.of_nat a <=? currentEditingIndex)%Z eqn:E1;
      destruct (currentEditingIndex <? Z.of_nat a)%Z eqn:E2; try reflexivity.
    apply Z.leb_le in E1. apply Z.ltb_lt in E2. lia.
  - cbn [seq map filter noteProps]. specialize (IH (S a)).
    replace (S a + k)%nat with (a + S k)%nat in IH by lia.
    destruct (Z.of_nat a =? currentEditingIndex)%Z eqn:E.
    + apply Z.eqb_eq in E. cbn [length]. rewrite IH.
      replace (Z.of_nat (S a) <=? currentEditingIndex)%Z with false
        by (symmetry; apply Z.leb_gt; lia).
      replace (Z.of_nat a <=? currentEditingIndex)%Z with true
        by (symmetry; apply Z.leb_le; lia).
      replace (currentEditingIndex <? Z.of_nat (a + S k))%Z with true
        by (symmetry; apply Z.ltb_lt; lia).
      reflexivity.
    + apply Z.eqb_neq in E. rewrite IH.
      destruct (Z.of_nat (S a) <=? currentEditingIndex)%Z eqn:E1;
        destruct (Z.of_nat a <=? currentEditingIndex)%Z eqn:E2; try reflexivity.
      * apply Z.leb_le in E1. apply Z.leb_gt in E2. lia.
      * apply Z.leb_gt in E1. apply Z.leb_le in E2. lia.
Qed.

(** X25: at most one note is in editing mode.  The number of notes
    rendered with [isInEditingMode] is one when [currentEditingIndex] is
    the index of a note, and zero otherwise, as for the initial [-1]. *)
Theorem one_note_edits_at_most (children : list child) :
  editing (notesOf (mapPropsToChildren currentEditingIndex children))
  = if ((0 <=? currentEditingIndex)
        && (currentEditingIndex <? Z.of_nat (length (notesOf children))))%Z
    then 1%nat else 0%nat.
Proof.
  unfold mapPropsToChildren.
  destruct (mappedAll_all children 0) as (H & _). rewrite H.
  apply (editing_seq _ 0).
Qed.

End NotesFacts.

(* ===================================================================== *)
(** * The further properties on concrete inputs                           *)
(* ===================================================================== *)

Section MoreRuns.

Import Autocomplete HookObs.

Lemma state_changes_only_by_render_or_response_witness :
  let o := mkOptions None None None None None None in
  let h := run "" (mount "" 0 (mkProps "key" "" "places" o))
             (Render (mkProps "key" "a" "places" o) :: ticks 400) in
  let es := [Resolve 0 None; Tick; GetPlaceDetails "ChIJ" (mkDetailOptions None None None);
             Resolve 1 (Some (mkResponse "OK" [])); Tick] in
  isLoading (st h) = true
  /\ st (run "" h es) = st h.
Proof.
  cbv zeta. split; [vm_compute; reflexivity |].
  apply (state_changes_only_by_render_or_response ""). vm_compute. reflexivity.
Defined.

Lemma render_sets_loading_witness :
  let o := mkOptions None None None None None None in
  let h := mount "" 0 (mkProps "key" "" "places" o) in
  st (render "" (mkProps "key" "a" "places" o) h)
  = {| results := EmptyArray; isLoading := true; error := None |}
  /\ issued (render "" (mkProps "key" "a" "places" o) h) = [].
Proof.
  cbv zeta.
  apply (render_sets_loading ""
           (mount "" 0 (mkProps "key" "" "places"
                          (mkOptions None None None None None None)))
           (mkProps "key" "a" "places" (mkOptions None None None None None None)));
    reflexivity.
Defined.

Lemma mount_query_is_not_looked_up_witness :
  let p := mkProps "key" "san fr" "places" (mkOptions None None None None None None) in
  let es := (ticks 1000 ++ [GetPlaceDetails "ChIJ" (mkDetailOptions None None None);
                            Resolve 0 (Some (mkResponse "OK" []))])%list in
  st (run "" (mount "" 0 p) es) = initialState
  /\ filter (fun r => negb (is_details r)) (issued (run "" (mount "" 0 p) es)) = [].
Proof.
  cbv zeta.
  apply (mount_query_is_not_looked_up "" 0%Z
           (mkProps "key" "san fr" "places" (mkOptions None None None None None None))).
  vm_compute. reflexivity.
Defined.

Lemma regenerated_token_separates_requests_witness :
  let o := mkOptions None None None None None None in
  let h := run "" (mount "" 0 (mkProps "key" "" "places" o))
             (Render (mkProps "key" "a" "places" o) :: ticks 400
              ++ [GetPlaceDetails "ChIJ" (mkDetailOptions None None None)]) in
  token_event h (Resolve 1 (Some (mkResponse "OK" []))) = true
  /\ exists new,
       issued (run "" h (Resolve 1 (Some (mkResponse "OK" []))
                         :: Render (mkProps "key" "ab" "places" o) :: ticks 400))
       = (issued h ++ new)%list
       /\ forall r_old r_new, In r_old (issued h) -> In r_new new ->
          (r_token r_old < r_token r_new)%nat.
Proof.
  cbv zeta. split; [vm_compute; reflexivity |].
  apply (regenerated_token_separates_requests "" 0%Z
           (mkProps "key" "" "places" (mkOptions None None None None None None))
           (Render (mkProps "key" "a" "places"
                      (mkOptions None None None None None None)) :: ticks 400
            ++ [GetPlaceDetails "ChIJ" (mkDetailOptions None None None)])
           (Resolve 1 (Some (mkResponse "OK" [])))).
  vm_compute. reflexivity.
Defined.

Lemma debounce_runs_func_once_per_burst_witness :
  Debounce.funcRuns
    (Debounce.run (Debounce.start 400 true 0)
       (Debounce.Call :: Debounce.calls [120; 90; 399]%nat ++ Debounce.waits 1000))
  = 1%nat
  /\ Debounce.funcRuns
       (Debounce.run (Debounce.start 400 false 0)
          (Debounce.Call :: Debounce.calls [120; 90; 399]%nat ++ Debounce.waits 399))
     = 0%nat.
Proof.
  split.
  - apply (debounce_runs_func_once_per_burst 400 true 0 [120; 90; 399]%nat 1000);
      reflexivity.
  - apply (debounce_runs_func_once_per_burst 400 false 0 [120; 90; 399]%nat 399);
      reflexivity.
Defined.

Lemma requests_of_a_session_share_the_token_witness :
  let o := mkOptions None None None None None None in
  let h := mount "" 0 (mkProps "key" "" "places" o) in
  let es := (Render (mkProps "key" "a" "places" o) :: ticks 400
             ++ [GetPlaceDetails "ChIJ" (mkDetailOptions None None None)])%list in
  exists new, issued (run "" h es) = (issued h ++ new)%list
    /\ Forall (fun r => r_token r = sessionToken h) new
    /\ length new = 2%nat.
Proof.
  cbv zeta.
  destruct (requests_of_a_session_share_the_token ""
              (mount "" 0 (mkProps "key" "" "places"
                             (mkOptions None None None None None None)))
              (Render (mkProps "key" "a" "places"
                         (mkOptions None None None None None None)) :: ticks 400
               ++ [GetPlaceDetails "ChIJ" (mkDetailOptions None None None)])%list)
    as (new & Hi & Ht).
  - vm_compute. reflexivity.
  - exists new. split; [exact Hi |]. split; [exact Ht |].
    apply (f_equal (@length request)) in Hi. rewrite length_app in Hi.
    vm_compute in Hi. symmetry. exact Hi.
Defined.

End MoreRuns.

Section MoreModalRuns.

Import Modal ModalKeys.

Lemma escape_calls_handleExit_once_witness :
  let d := mkDocument (Some [mkElement "button" None]) None None 0 2000 [] None in
  let es := [RenderPortal []; Timeout; SetOpen true; SetOpen false; SetOpen true] in
  keydown d = []
  /\ length (keydown (doc (run (mount false false d) es))) = 1%nat
  /\ keydownEvent "Escape" (run (mount false false d) es) = 1%nat.
Proof.
  cbv zeta. split; [reflexivity |].
  destruct (escape_calls_handleExit_once
              (mkDocument (Some [mkElement "button" None]) None None 0 2000 [] None)
              false false
              [RenderPortal []; Timeout; SetOpen true; SetOpen false; SetOpen true]
              "Escape" eq_refl) as [H1 H2].
  split; [exact H1 | exact H2].
Defined.

Lemma deferred_pass_hides_initial_content_witness :
  let d := mkDocument (Some [mkElement "button" None]) None None 0 2000 [] None in
  let m := run (mount false false d)
             [RenderPortal [mkElement "input" None; mkElement "p" None]; Timeout] in
  modalContainer (doc m)
  = Some [mkElement "button" (Some "-1"); mkElement "input" (Some "-1");
          mkElement "p" None]
  /\ deferred (run m [SetOpen true; SetOpen false; Timeout]) = None.
Proof.
  cbv zeta. split; [reflexivity |].
  apply (deferred_pass_hides_initial_content
           (mkDocument (Some [mkElement "button" None]) None None 0 2000 [] None)
           false [mkElement "input" None; mkElement "p" None]
           [SetOpen true; SetOpen false; Timeout]).
  reflexivity.
Defined.

Lemma unmount_while_open_keeps_background_untabbable_witness :
  let d := mkDocument (Some [mkElement "button" None; mkElement "p" None])
             None None 300 2000 [] None in
  let m := run (mount false false d) [RenderPortal []; Timeout; SetOpen true] in
  isOpen m = true
  /\ rootContainer (doc (cleanup m))
     = Some [mkElement "button" (Some "-1"); mkElement "p" None]
  /\ bodyStyle (doc (cleanup m)) = None
  /\ keydown (doc (cleanup m)) = []
  /\ untabbable (mkElement "button" (Some "-1")).
Proof.
  cbv zeta. split; [reflexivity |]. split; [reflexivity |].
  apply (unmount_while_open_keeps_background_untabbable
           (mkDocument (Some [mkElement "button" None; mkElement "p" None])
              None None 300 2000 [] None)
           false false [RenderPortal []; Timeout; SetOpen true]
           [mkElement "button" (Some "-1"); mkElement "p" None]).
  - reflexivity.
  - reflexivity.
  - reflexivity.
  - simpl. tauto.
  - reflexivity.
Defined.

Lemma focus_follows_open_and_close_witness :
  let d := mkDocument (Some [mkElement "button" None]) None None 0 2000 [] None in
  let m := run (mount false true d) [RenderPortal []; Timeout] in
  activeElement (doc (setOpen true m)) = Some ExitButton
  /\ activeElement (doc (setOpen false (setOpen true m))) = Some FocusAfterExit.
Proof.
  cbv zeta. split.
  - destruct (focus_follows_open_and_close
                (run (mount false true
                        (mkDocument (Some [mkElement "button" None]) None None 0 2000 [] None))
                     [RenderPortal []; Timeout])
                (mkDocument None None None 0 0 [] None) false) as (H & _).
    exact (H eq_refl).
  - destruct (focus_follows_open_and_close
                (setOpen true
                   (run (mount false true
                           (mkDocument (Some [mkElement "button" None]) None None 0 2000 [] None))
                        [RenderPortal []; Timeout]))
                (mkDocument None None None 0 0 [] None) false) as (_ & H & _).
    exact (H eq_refl).
Defined.

End MoreModalRuns.

Section MoreScrollRuns.

Import Scroll.
Local Open Scope Q_scope.

Lemma animation_completes_at_most_once_witness :
  let a := mkArgs 200 0 500 easeInQuart true 100 0 in
  let s := run a (scroll a None) [Frame 250; Frame 500; Timeout] in
  callbackRuns s = 1%nat
  /\ run a s [Frame 600; Timeout; Teardown; Timeout] = s.
Proof.
  cbv zeta. split; [reflexivity |].
  apply (animation_completes_at_most_once
           (mkArgs 200 0 500 easeInQuart true 100 0) None
           [Frame 250; Frame 500; Timeout]
           [Frame 600; Timeout; Teardown; Timeout]).
  reflexivity.
Defined.

Lemma animation_reaches_completion_witness :
  let a := mkArgs 50 (-120) 500 easeInQuart false 0 0 in
  cachePosition a == -70
  /\ run a (scroll a None) ([Frame 16; Teardown; Frame 33] ++ [Frame 501; Timeout])
     = mkAnimator (Some 0) (Some (cachePosition a)) false false 0 1.
Proof.
  cbv zeta. split; [reflexivity |].
  apply (animation_reaches_completion
           (mkArgs 50 (-120) 500 easeInQuart false 0 0) None
           [Frame 16; Teardown; Frame 33] 501%Z).
  vm_compute. discriminate.
Defined.

Lemma default_easing_stays_within_target_witness :
  let a := mkArgs 200 0 500 easeInQuart false 100 0 in
  translate a 250 == (1 # 16) * finalTranslate a.
Proof.
  cbv zeta.
  destruct (default_easing_stays_within_target 200 0 500 100 false 0%Z 250)
    as (_ & _ & H).
  - vm_compute. discriminate.
  - reflexivity.
  - rewrite H. reflexivity.
Defined.

End MoreScrollRuns.

Section MoreNavRuns.

Import NavDemo NavObs.

Lemma leave_reverts_one_step_witness :
  let d := observe mounted [Section_ true (Str "home"); Section_ true (Str "about")] in
  let d1 := sectionCallback false (Str "about") d in
  currentlyFocusedSection (st d1) = Str "home"
  /\ observe d1 (map (Section_ false) [Str "home"; Str "about"]) = d1.
Proof.
  cbv zeta.
  apply (leave_reverts_one_step
           (observe mounted [Section_ true (Str "home"); Section_ true (Str "about")])
           (Str "about") [Str "home"; Str "about"]); reflexivity.
Defined.

Lemma progress_bar_runs_one_loop_witness :
  let c := mkMeasures 700 3500 in
  let n := NavDemo.run (navMount false c 0)
             [SetShowing true c 800; AnimationFrame 900; SetShowing false c 100;
              AnimationFrame 50] in
  length (frames n) = 0%nat
  /\ transform n = ScaleZero
  /\ length (frames (NavDemo.run (navMount false c 0)
                       [SetShowing true c 800; AnimationFrame 900])) = 1%nat.
Proof.
  cbv zeta.
  destruct (progress_bar_runs_one_loop false (mkMeasures 700 3500) 0
              [SetShowing true (mkMeasures 700 3500) 800; AnimationFrame 900;
               SetShowing false (mkMeasures 700 3500) 100; AnimationFrame 50]
              eq_refl) as (H1 & H2 & _).
  split; [exact H1 |]. split; [apply H2; reflexivity |].
  apply (progress_bar_runs_one_loop false (mkMeasures 700 3500) 0
           [SetShowing true (mkMeasures 700 3500) 800; AnimationFrame 900] eq_refl).
Defined.

End MoreNavRuns.
